(** * The OAuth-login terminal bridge of openclaw-helper

    A shallow embedding of the WebSocket endpoint that runs an interactive
    login command behind a pseudo-terminal and relays it to the browser:
    [setupWebSocket] and [handleOAuthLogin] of the websocket module, and
    the earlier revisions of the same handler kept in [index.ts].

    The handlers are event callbacks.  A connection is a record of what
    the callbacks close over (socket state, spawned processes, registered
    listeners, handlers suspended at an [await], pending timers); every
    callback is a computation in a small state-and-output monad whose
    output is the list of calls made on the outside world ([ws.send],
    [ws.close], [pty.spawn], [shell.write], ...).

    The text utilities kept next to the websocket module ([stripAnsi],
    [extractPlainValue], [extractJson]) and two helpers of the router
    that consumes them ([asciiJson], [parseInput]) are pure functions on
    strings; they are embedded as functions on lists of UTF-16 code
    units. *)

From Stdlib Require Import String Ascii List ZArith Bool Lia.
From Stdlib Require Import DecimalString DecimalZ.
From Stdlib Require Import NArith.
From Stdlib Require HexadecimalString.
Import ListNotations.
Open Scope string_scope.
Open Scope list_scope.
Set Warnings "-register-all".

(** ** JavaScript values, as far as the handlers look at them *)

Module JS.

(** What [JSON.parse] returns, plus [undefined] for absent properties.
    Numbers are kept integral: the handlers only test them for
    truthiness and print exit codes. *)
Inductive value : Type :=
| undefined
| null
| boolean (b : bool)
| number (n : Z)
| str (s : string)
| object (props : list (string * value))
| array (items : list value).

(** [!!v] *)
Definition truthy (v : value) : bool :=
  match v with
  | undefined | null => false
  | boolean b => b
  | number n => negb (n =? 0)%Z
  | str s => negb (s =? "")
  | object _ | array _ => true
  end.

Fixpoint lookup (key : string) (props : list (string * value)) : value :=
  match props with
  | [] => undefined
  | (k, v) :: rest => if k =? key then v else lookup key rest
  end.

(** [v.key] for the property names the handlers read ([provider],
    [type], [data]; none is a built-in property of a primitive or an
    array).  [None] is the TypeError raised on [null] and [undefined]. *)
Definition get (v : value) (key : string) : option value :=
  match v with
  | undefined | null => None
  | object props => Some (lookup key props)
  | _ => Some undefined
  end.

(** [v === 'literal'] *)
Definition strict_eq (v : value) (literal : string) : bool :=
  match v with
  | str s => s =? literal
  | _ => false
  end.

(** [x || fallback] on an environment variable (a string or absent). *)
Definition or_default (x : option string) (fallback : string) : string :=
  match x with
  | Some s => if s =? "" then fallback else s
  | None => fallback
  end.

(** [`${n}`] for an integral number. *)
Definition number_to_string (n : Z) : string :=
  NilZero.string_of_int (Z.to_int n).

(** A thrown error object, seen through its [message] property. *)
Definition error : Type := option string.

(** ['...' + error.message] *)
Definition message_text (e : error) : string :=
  match e with
  | Some m => m
  | None => "undefined"
  end.

(** The text of an inbound message, classified by what [JSON.parse]
    does with it. *)
Inductive RawData : Type :=
| Malformed                (* JSON.parse throws a SyntaxError *)
| Json (v : value).        (* JSON.parse returns v *)

Definition JSON_parse (message : RawData) : option value :=
  match message with
  | Malformed => None
  | Json v => Some v
  end.

End JS.

Import JS.

(** ** The socket, the frames and the calls on the outside world *)

Inductive ReadyState : Type := CONNECTING | OPEN | CLOSING | CLOSED.

Definition is_open (rs : ReadyState) : bool :=
  match rs with OPEN => true | _ => false end.

(** [{type:'output',data}], [{type:'success',message}],
    [{type:'error',message}], before [JSON.stringify]. *)
Inductive Frame : Type :=
| Output (data : string)
| Success (message : string)
| Error (message : string).

Definition is_terminal (f : Frame) : bool :=
  match f with Output _ => false | _ => true end.

Record SpawnCall : Type := mkSpawn {
  file : string;
  args : list string;
  cwd : string;
  env_PATH : option string;
  env_TERM : option string
}.

(** One entry per call the handlers make, in program order.  A send
    records the [readyState] the socket had when [ws.send] was called. *)
Inductive Effect : Type :=
| WsSend (rs : ReadyState) (f : Frame)
| WsClose
| SetTimeoutClose (ms : nat)          (* setTimeout(() => ws.close(), ms) *)
| PtySpawn (cols rows : nat) (call : SpawnCall)
| ChildSpawn (call : SpawnCall)
| ShellWrite (shell : nat) (data : value)
| ConsoleError
| ConsoleLog
| SocketDestroy.

Definition frames (out : list Effect) : list Frame :=
  flat_map (fun e => match e with WsSend _ f => [f] | _ => [] end) out.

Definition spawns (out : list Effect) : list Effect :=
  filter (fun e => match e with PtySpawn _ _ _ | ChildSpawn _ => true | _ => false end) out.

Definition writes (out : list Effect) : list (nat * value) :=
  flat_map (fun e => match e with ShellWrite p d => [(p, d)] | _ => [] end) out.

Definition closes (out : list Effect) : list Effect :=
  filter (fun e => match e with WsClose | SetTimeoutClose _ => true | _ => false end) out.

(** [s] occurs inside [t]. *)
Definition contains (t s : string) : Prop :=
  exists before after, t = (before ++ s ++ after)%string.

(** ** What the environment decides *)

Inductive result : Type :=
| Ok
| Throws (e : error).

(** How an [await import(...)] and the spawn that follows it turn out. *)
Record Outcome : Type := mkOutcome {
  imported : result;       (* the import resolves, or rejects with an error *)
  existsSync : bool;       (* what fs.existsSync(openclawPath) answers *)
  spawned : result         (* the spawn returns a handle, or throws *)
}.

Record ProcessEnv : Type := mkEnv {
  SHELL : option string;
  HOME : option string;
  PATH : option string;
  TERM : option string;
  process_cwd : string
}.

(** ** Connections and the handler monad *)

(** A spawned process, as the callbacks registered on it see it: a
    pseudo-terminal shell, or a child run through the [script] wrapper
    whose close callback keeps the [err] that made [pty.spawn] fail. *)
Inductive ProcessKind : Type :=
| PtyShell
| ScriptChild (err : error).

Record Process : Type := mkProcess {
  kind : ProcessKind;
  exited : bool
}.

(** A handler invocation suspended at an [await], with the variables it
    resumes with. *)
Inductive Suspended : Type :=
| AwaitNodePty (provider : value)
| AwaitChildProcess (provider : value) (command : string) (err : error).

Record Connection : Type := mkConnection {
  readyState : ReadyState;
  processes : list Process;          (* in spawn order; a process is named by its index *)
  listeners : list (option nat);     (* the [shell] variable of each input listener *)
  awaiting : list Suspended;         (* oldest first *)
  timers : list nat                  (* pending [setTimeout(() => ws.close(), ms)] *)
}.

Definition Handler (A : Type) : Type :=
  Connection -> A * Connection * list Effect.

Definition ret {A : Type} (a : A) : Handler A :=
  fun c => (a, c, []).

Definition bind {A B : Type} (m : Handler A) (k : A -> Handler B) : Handler B :=
  fun c =>
    let '(a, c1, out1) := m c in
    let '(b, c2, out2) := k a c1 in
    (b, c2, out1 ++ out2).

Declare Scope handler_scope.
Delimit Scope handler_scope with handler.
Notation "x <- m ;; k" := (bind m (fun x => k))
  (at level 61, m at next level, right associativity) : handler_scope.
Notation "m ;; k" := (bind m (fun _ => k))
  (at level 61, right associativity) : handler_scope.
Open Scope handler_scope.

Definition emit (e : Effect) : Handler unit :=
  fun c => (tt, c, [e]).

Definition get_readyState : Handler ReadyState :=
  fun c => (readyState c, c, []).

Definition set_readyState (rs : ReadyState) : Handler unit :=
  fun c => (tt, mkConnection rs (processes c) (listeners c) (awaiting c) (timers c), []).

(** [ws.send(JSON.stringify(frame))] *)
Definition ws_send (f : Frame) : Handler unit :=
  rs <- get_readyState ;; emit (WsSend rs f).

(** [ws.close()]: an open socket starts its closing handshake; a closing
    or closed one stays as it is. *)
Definition after_close (rs : ReadyState) : ReadyState :=
  match rs with
  | CONNECTING | OPEN => CLOSING
  | CLOSING => CLOSING
  | CLOSED => CLOSED
  end.

Definition ws_close : Handler unit :=
  rs <- get_readyState ;; emit WsClose ;; set_readyState (after_close rs).

(** [setTimeout(() => ws.close(), ms)] *)
Definition setTimeout_close (ms : nat) : Handler unit :=
  fun c => (tt, mkConnection (readyState c) (processes c) (listeners c) (awaiting c)
                  (timers c ++ [ms]), [SetTimeoutClose ms]).

(** [await ...]: the rest of the handler waits for the environment. *)
Definition await (k : Suspended) : Handler unit :=
  fun c => (tt, mkConnection (readyState c) (processes c) (listeners c) (awaiting c ++ [k])
                  (timers c), []).

Definition resume : Handler (option Suspended) :=
  fun c => match awaiting c with
           | [] => (None, c, [])
           | k :: rest =>
               (Some k, mkConnection (readyState c) (processes c) (listeners c) rest (timers c), [])
           end.

(** The callbacks of a freshly spawned process are registered. *)
Definition attach (k : ProcessKind) : Handler nat :=
  fun c => (length (processes c),
            mkConnection (readyState c) (processes c ++ [mkProcess k false]) (listeners c)
              (awaiting c) (timers c), []).

(** [ws.on('message', ...)] for an input listener closing over [shell]. *)
Definition ws_on_message (shell : option nat) : Handler unit :=
  fun c => (tt, mkConnection (readyState c) (processes c) (listeners c ++ [shell])
                  (awaiting c) (timers c), []).

Definition get_listeners : Handler (list (option nat)) :=
  fun c => (listeners c, c, []).

Fixpoint for_each {A : Type} (l : list A) (f : A -> Handler unit) : Handler unit :=
  match l with
  | [] => ret tt
  | a :: rest => f a ;; for_each rest f
  end.

(** The operating system delivers the exit of a process once, and nothing
    after it: the table remembers which processes have exited. *)
Fixpoint mark_exited (p : nat) (l : list Process) : list Process :=
  match l, p with
  | [], _ => []
  | pr :: rest, O => mkProcess (kind pr) true :: rest
  | pr :: rest, S q => pr :: mark_exited q rest
  end.

(** A callback of process [p] fires, if [p] is still running. *)
Definition running (p : nat) : Handler (option ProcessKind) :=
  fun c => match nth_error (processes c) p with
           | Some pr => if exited pr then (None, c, []) else (Some (kind pr), c, [])
           | None => (None, c, [])
           end.

Definition exits (p : nat) : Handler unit :=
  fun c => (tt, mkConnection (readyState c) (mark_exited p (processes c)) (listeners c)
                  (awaiting c) (timers c), []).

(** What happens on a connection. *)
Inductive Event : Type :=
| Message (message : RawData)                 (* ws 'message' *)
| Resume (o : Outcome)                        (* the oldest pending [await] settles *)
| PtyData (shell : nat) (data : string)       (* shell.onData *)
| PtyExit (shell : nat) (exitCode : Z)        (* shell.onExit *)
| ChildStdout (child : nat) (data : string)   (* child.stdout 'data' *)
| ChildStderr (child : nat) (data : string)   (* child.stderr 'data' *)
| ChildClose (child : nat) (code : option Z)  (* child 'close'; null when killed by a signal *)
| TimerFires                                  (* the oldest pending timer *)
| SocketCloses                                (* ws 'close': the transport is gone *)
| SocketError.                                (* ws 'error' *)

(** ** Callbacks the websocket module and the [ws]-based revisions of
    [index.ts] share word for word *)

(** The first listener on 'message', up to its [await import('node-pty')]. *)
Definition onMessage (message : RawData) : Handler unit :=
  match JSON_parse message with
  | None => emit ConsoleError                        (* catch (error) *)
  | Some data =>
      match get data "provider", get data "type" with
      | Some provider, Some type =>
          if negb (truthy type) && truthy provider then
            if negb (truthy provider) then ws_send (Error "请指定模型提供商")
            else await (AwaitNodePty provider)
          else ret tt
      | _, _ => emit ConsoleError                    (* TypeError, caught *)
      end
  end.

(** The outer [catch (error)]: report and close. *)
Definition startFailed (error : JS.error) : Handler unit :=
  ws_send (Error ("启动终端失败: " ++ message_text error)%string) ;;
  ws_close.

(** [shell.onData] and the two [child.std*.on('data')] callbacks. *)
Definition onData (data : string) : Handler unit :=
  rs <- get_readyState ;;
  if is_open rs then ws_send (Output data) else ret tt.

(** [shell.onExit(({ exitCode }) => ...)] *)
Definition onExit (exitCode : Z) : Handler unit :=
  rs <- get_readyState ;;
  if is_open rs then
    (if (exitCode =? 0)%Z then ws_send (Success "登录成功！")
     else ws_send (Error ("命令执行失败 (退出码: " ++ number_to_string exitCode ++ ")")%string)) ;;
    setTimeout_close 1000
  else ret tt.

(** [`${code}`] for the code of a 'close' event. *)
Definition code_text (code : option Z) : string :=
  match code with
  | Some n => number_to_string n
  | None => "null"
  end.

(** [err?.message ? `，pty 启动失败: ${err.message}` : ''] *)
Definition ptyFailure (err : JS.error) : string :=
  match err with
  | Some m => if (m =? "")%string then "" else ("，pty 启动失败: " ++ m)%string
  | None => ""
  end.

(** [child.on('close', (code) => ...)] of the fallback, closing over [err]. *)
Definition onClose (err : JS.error) (code : option Z) : Handler unit :=
  rs <- get_readyState ;;
  if is_open rs then
    (match code with
     | Some 0%Z => ws_send (Success "登录成功！")
     | _ => ws_send (Error ("命令执行失败 (退出码: " ++ code_text code ++ ")"
                              ++ ptyFailure err)%string)
     end) ;;
    setTimeout_close 1000
  else ret tt.

(** Everything but 'message' and a settled [await]: the callbacks above,
    dispatched to the process they were registered on. *)
Definition callbacks (e : Event) : Handler unit :=
  match e with
  | Message _ | Resume _ => ret tt
  | PtyData p data =>
      k <- running p ;;
      match k with Some PtyShell => onData data | _ => ret tt end
  | PtyExit p exitCode =>
      k <- running p ;;
      match k with Some PtyShell => exits p ;; onExit exitCode | _ => ret tt end
  | ChildStdout p data | ChildStderr p data =>
      k <- running p ;;
      match k with Some (ScriptChild _) => onData data | _ => ret tt end
  | ChildClose p code =>
      k <- running p ;;
      match k with Some (ScriptChild err) => exits p ;; onClose err code | _ => ret tt end
  | TimerFires =>
      fun c => match timers c with
               | [] => (tt, c, [])
               | _ :: rest =>
                   ws_close (mkConnection (readyState c) (processes c) (listeners c)
                               (awaiting c) rest)
               end
  | SocketCloses => set_readyState CLOSED ;; emit ConsoleLog
  | SocketError => emit ConsoleError
  end.

(** A run of events through a step function, with the calls it makes. *)
Fixpoint run (step : Event -> Handler unit) (c : Connection) (events : list Event)
  : Connection * list Effect :=
  match events with
  | [] => (c, [])
  | e :: rest =>
      let '(_, c1, out1) := step e c in
      let '(c2, out2) := run step c1 rest in
      (c2, out1 ++ out2)
  end.

(** The connection as the upgrade hands it to the handler. *)
Definition fresh : Connection :=
  mkConnection OPEN [] [] [] [].

(** Processes whose exit has not been delivered. *)
Definition attached (c : Connection) : list Process :=
  filter (fun p => negb (exited p)) (processes c).


(** ** The websocket module: [setupWebSocket] and [handleOAuthLogin] *)

Module Websocket.

Section Host.

Variable env : ProcessEnv.

Definition shPath : string := or_default (SHELL env) "/bin/sh".

Definition home : string := or_default (HOME env) (process_cwd env).

Definition childPATH : string :=
  or_default (PATH env)
    (home ++ "/.local/bin:/usr/local/bin:/usr/bin:/bin:/usr/sbin:/sbin")%string.

Definition childTERM : string := or_default (TERM env) "xterm-256color".

Definition scriptPath : string := "/usr/bin/script".

(** The [if (provider === 'gpt') ... else if (provider === 'qwen') ...]
    chain; [None] is its final [else]. *)
Definition command (provider : value) : option string :=
  if strict_eq provider "gpt" then
    Some "openclaw onboard --flow quickstart --auth-choice openai-codex --skip-channels --skip-skills --skip-health --skip-daemon --no-install-daemon --skip-ui"
  else if strict_eq provider "qwen" then
    Some "openclaw models auth login --provider qwen-portal --set-default"
  else None.

(** The input listener registered after a launch, closing over [shell]
    ([undefined] on the fallback path). *)
Definition onInput (shell : option nat) (msg : RawData) : Handler unit :=
  match JSON_parse msg with
  | None => ret tt                                   (* catch: ignored *)
  | Some inputData =>
      match get inputData "type" with
      | None => ret tt                               (* TypeError, caught: ignored *)
      | Some type =>
          match strict_eq type "input", shell with
          | true, Some pty =>
              match get inputData "data" with
              | Some data => emit (ShellWrite pty data)
              | None => ret tt
              end
          | _, _ => ret tt
          end
      end
  end.

(** The first listener, from [import('node-pty')] to the pty spawn ... *)
Definition afterImportNodePty (provider : value) (o : Outcome) : Handler unit :=
  match imported o with
  | Throws error => startFailed error
  | Ok =>
      match command provider with
      | None => ws_send (Error "不支持的提供商")
      | Some cmd =>
          let ptyFile := shPath in
          let ptyArgs := ["-lc"; cmd] in
          emit (PtySpawn 80 30 (mkSpawn ptyFile ptyArgs home (Some childPATH) (Some childTERM))) ;;
          match spawned o with
          | Ok => shell <- attach PtyShell ;; ws_on_message (Some shell)
          | Throws err => await (AwaitChildProcess provider cmd err)
          end
      end
  end.

(** ... and, in [catch (err)], from [import('child_process')] on. *)
Definition afterImportChildProcess (cmd : string) (err : JS.error) (o : Outcome)
  : Handler unit :=
  match imported o with
  | Throws error => startFailed error
  | Ok =>
      let fallbackFile := shPath in
      let fallbackArgs := ["-lc"; cmd] in
      emit (ChildSpawn (mkSpawn scriptPath ("-q" :: "/dev/null" :: fallbackFile :: fallbackArgs)
                          home (Some childPATH) (Some childTERM))) ;;
      match spawned o with
      | Ok => attach (ScriptChild err) ;; ws_on_message None
      | Throws error => startFailed error
      end
  end.

(** One event, dispatched to the listeners registered for it: the first
    listener, then the input listeners in registration order. *)
Definition step (e : Event) : Handler unit :=
  match e with
  | Message message =>
      inner <- get_listeners ;;
      onMessage message ;;
      for_each inner (fun shell => onInput shell message)
  | Resume o =>
      k <- resume ;;
      match k with
      | Some (AwaitNodePty provider) => afterImportNodePty provider o
      | Some (AwaitChildProcess _ cmd err) => afterImportChildProcess cmd err o
      | None => ret tt
      end
  | _ => callbacks e
  end.



End Host.

End Websocket.

(** ** [index.ts] with the script-wrapper fallback inline *)

Module IndexScript.

Section Host.

Variable env : ProcessEnv.

Definition shPath : string := or_default (SHELL env) "/bin/sh".

Definition home : string := or_default (HOME env) (process_cwd env).

Definition childPATH : string :=
  or_default (PATH env)
    (home ++ "/.local/bin:/usr/local/bin:/usr/bin:/bin:/usr/sbin:/sbin")%string.

Definition childTERM : string := or_default (TERM env) "xterm-256color".

Definition scriptPath : string := "/usr/bin/script".

(** [path.join(home, '.local/bin', 'openclaw')], for a [home] without a
    trailing separator. *)
Definition openclawPath : string := (home ++ "/.local/bin/openclaw")%string.

Definition command (provider : value) : option string :=
  if strict_eq provider "gpt" then
    Some "openclaw models auth login --provider openai --set-default"
  else if strict_eq provider "qwen" then
    Some "openclaw models auth login --provider qwen-portal --set-default"
  else None.

(** [provider] as an argument of the command line: a string wherever
    [command] has accepted it. *)
Definition provider_text (provider : value) : string :=
  match provider with
  | str s => s
  | _ => ""
  end.

(** [directOpenclaw ? openclawPath : shPath] and the matching arguments. *)
Definition target (directOpenclaw : bool) (provider : value) (cmd : string)
  : string * list string :=
  if directOpenclaw
  then (openclawPath, ["models"; "auth"; "login"; "--provider"; provider_text provider;
                       "--set-default"])
  else (shPath, ["-lc"; cmd]).

(** The name [shell] where the input listener is registered: [const shell]
    is declared inside the inner [try] block and the listener is created
    after that block, so the name is unbound there. *)
Definition shell_in_scope : option nat := None.

(** The input listener.  Evaluating the unbound [shell] raises a
    ReferenceError inside the listener's own [try], whose [catch] ignores
    it. *)
Definition onInput (msg : RawData) : Handler unit :=
  match JSON_parse msg with
  | None => ret tt
  | Some inputData =>
      match get inputData "type" with
      | None => ret tt
      | Some type =>
          if strict_eq type "input" then
            match shell_in_scope, get inputData "data" with
            | Some pty, Some data => emit (ShellWrite pty data)
            | _, _ => ret tt
            end
          else ret tt
      end
  end.

Definition afterImportNodePty (provider : value) (o : Outcome) : Handler unit :=
  match imported o with
  | Throws error => startFailed error
  | Ok =>
      match command provider with
      | None => ws_send (Error "不支持的提供商")
      | Some cmd =>
          let directOpenclaw := existsSync o in
          let '(ptyFile, ptyArgs) := target directOpenclaw provider cmd in
          emit (PtySpawn 80 30 (mkSpawn ptyFile ptyArgs home (Some childPATH) (Some childTERM))) ;;
          match spawned o with
          | Ok => attach PtyShell ;; ws_on_message None
          | Throws err => await (AwaitChildProcess provider cmd err)
          end
      end
  end.

(** The fallback spawn: [if (scriptPath) { ... } else { ... }]. *)
Definition fallbackSpawn (fallbackFile : string) (fallbackArgs : list string) : SpawnCall :=
  if truthy (str scriptPath)
  then mkSpawn scriptPath ("-q" :: "/dev/null" :: fallbackFile :: fallbackArgs)
         home (Some childPATH) (Some childTERM)
  else mkSpawn fallbackFile fallbackArgs home (Some childPATH) (Some childTERM).

Definition afterImportChildProcess (provider : value) (cmd : string) (err : JS.error)
  (o : Outcome) : Handler unit :=
  match imported o with
  | Throws error => startFailed error
  | Ok =>
      let directOpenclaw := existsSync o in
      let '(fallbackFile, fallbackArgs) := target directOpenclaw provider cmd in
      emit (ChildSpawn (fallbackSpawn fallbackFile fallbackArgs)) ;;
      match spawned o with
      | Ok => attach (ScriptChild err) ;; ws_on_message None
      | Throws error => startFailed error
      end
  end.

Definition step (e : Event) : Handler unit :=
  match e with
  | Message message =>
      inner <- get_listeners ;;
      onMessage message ;;
      for_each inner (fun _ => onInput message)
  | Resume o =>
      k <- resume ;;
      match k with
      | Some (AwaitNodePty provider) => afterImportNodePty provider o
      | Some (AwaitChildProcess provider cmd err) => afterImportChildProcess provider cmd err o
      | None => ret tt
      end
  | _ => callbacks e
  end.

End Host.

End IndexScript.

(** ** [index.ts] with the pseudo-terminal only *)

Module Index.

Section Host.

Variable env : ProcessEnv.

Definition command (provider : value) : option string :=
  if strict_eq provider "gpt" then
    Some "openclaw models auth login --provider openai --set-default"
  else if strict_eq provider "qwen" then
    Some "openclaw models auth login --provider qwen-portal --set-default"
  else None.

Definition onInput (shell : nat) (msg : RawData) : Handler unit :=
  match JSON_parse msg with
  | None => ret tt
  | Some inputData =>
      match get inputData "type" with
      | None => ret tt
      | Some type =>
          if strict_eq type "input" then
            match get inputData "data" with
            | Some data => emit (ShellWrite shell data)
            | None => ret tt
            end
          else ret tt
      end
  end.

Definition afterImportNodePty (provider : value) (o : Outcome) : Handler unit :=
  match imported o with
  | Throws error => startFailed error
  | Ok =>
      match command provider with
      | None => ws_send (Error "不支持的提供商")
      | Some cmd =>
          emit (PtySpawn 80 30 (mkSpawn "sh" ["-c"; cmd] (or_default (HOME env) (process_cwd env))
                                  (PATH env) (TERM env))) ;;
          match spawned o with
          | Ok => shell <- attach PtyShell ;; ws_on_message (Some shell)
          | Throws error => startFailed error
          end
      end
  end.

Definition step (e : Event) : Handler unit :=
  match e with
  | Message message =>
      inner <- get_listeners ;;
      onMessage message ;;
      for_each inner (fun shell => match shell with
                                   | Some pty => onInput pty message
                                   | None => ret tt
                                   end)
  | Resume o =>
      k <- resume ;;
      match k with
      | Some (AwaitNodePty provider) => afterImportNodePty provider o
      | _ => ret tt
      end
  | _ => callbacks e
  end.

End Host.

End Index.

(** ** The first [index.ts], on the framework's [upgradeWebSocket]

    Only the callbacks are embedded: what the framework does around them
    (routing, a rejected [onMessage]) is not part of the repository. *)

Module IndexHono.

(** How a call of the async [onMessage] ends before its first [await]. *)
Inductive Completion : Type :=
| Returned
| Suspends (provider : value)     (* at [await import('node-pty')] *)
| Rejected.                       (* an exception leaves the handler *)

Definition onMessage (message : RawData) : Handler Completion :=
  match JSON_parse message with
  | None => ret Rejected
  | Some data =>
      match get data "provider" with
      | None => ret Rejected
      | Some provider =>
          if negb (truthy provider) then
            ws_send (Error "请指定模型提供商") ;; ret Returned
          else ret (Suspends provider)
      end
  end.

Definition onData (data : string) : Handler unit :=
  ws_send (Output data).

Definition onExit (exitCode : Z) : Handler unit :=
  (if (exitCode =? 0)%Z then ws_send (Success "登录成功！")
   else ws_send (Error ("命令执行失败 (退出码: " ++ number_to_string exitCode ++ ")")%string)) ;;
  ws_close.

End IndexHono.

(** ** A host and a few inbound frames to run the handlers on *)

Definition host : ProcessEnv :=
  mkEnv (Some "/bin/bash") (Some "/home/operator") None None "/srv/openclaw-helper".

(** [{"provider": flowId}] *)
Definition connect (flowId : string) : RawData :=
  Json (object [("provider", str flowId)]).

(** [{"type":"start","provider": flowId}] *)
Definition start (flowId : string) : RawData :=
  Json (object [("type", str "start"); ("provider", str flowId)]).

(** [{"type":"input","data": text}] *)
Definition input (data : value) : RawData :=
  Json (object [("type", str "input"); ("data", data)]).

(** Every import resolves and every spawn returns a handle. *)
Definition allGood : Outcome := mkOutcome Ok false Ok.

(** The import resolves and the spawn throws. *)
Definition spawnThrows (e : JS.error) : Outcome := mkOutcome Ok false (Throws e).

(** ** The utilities next to the websocket module: [stripAnsi],
    [extractPlainValue], [extractJson] *)

Module Utils.

(** A JavaScript string as the string methods see it: its UTF-16 code
    units. *)
Definition text : Type := list N.

(** The code units of an ASCII literal. *)
Definition units (s : string) : text :=
  map N_of_ascii (list_ascii_of_string s).

Definition between (lo hi c : N) : bool := ((lo <=? c) && (c <=? hi))%N.

(** The classes of the pattern
    [/\x1B(?:[@-Z\\-_]|\[[0-?]*[ -/]*[@-~])/g]. *)
Definition ESC : N := 27.

(** [[@-Z\\-_]]: from [@] to [Z] and from the backslash to [_]. *)
Definition escFinal (c : N) : bool := between 64 90 c || between 92 95 c.

(** [[0-?]] *)
Definition csiParam (c : N) : bool := between 48 63 c.

(** [[ -/]] *)
Definition csiInter (c : N) : bool := between 32 47 c.

(** [[@-~]] *)
Definition csiFinal (c : N) : bool := between 64 126 c.

(** How many leading units satisfy [p]: what a greedy [p*] takes. *)
Fixpoint span (p : N -> bool) (s : text) : nat :=
  match s with
  | c :: rest => if p c then S (span p rest) else O
  | [] => O
  end.

(** The length of the match of the pattern at the head of [s], if it
    matches there.  The two starred classes and the class of the last
    unit are pairwise disjoint, so nothing is gained by giving units
    back: the greedy reading is the only one. *)
Definition escapeLength (s : text) : option nat :=
  match s with
  | e :: c :: rest =>
      if (e =? ESC)%N then
        if escFinal c then Some 2
        else if (c =? 91)%N then
          let params := span csiParam rest in
          let inters := span csiInter (skipn params rest) in
          match nth_error rest (params + inters) with
          | Some f => if csiFinal f then Some (3 + params + inters) else None
          | None => None
          end
        else None
      else None
  | _ => None
  end.

(** [str.replace(pattern, '')] with the [g] flag: left to right, a match
    is dropped whole and the scan goes on behind it; [drop] counts the
    units of the current match still to be dropped. *)
Fixpoint strip (drop : nat) (s : text) : text :=
  match s with
  | [] => []
  | c :: rest =>
      match drop with
      | S d => strip d rest
      | O =>
          match escapeLength s with
          | Some n => strip (pred n) rest
          | None => c :: strip 0 rest
          end
      end
  end.

Definition stripAnsi (str : text) : text := strip 0 str.

(** [s.split(sep)] for a one-unit separator; the empty string gives one
    empty part. *)
Fixpoint split (sep : N) (s : text) : list text :=
  match s with
  | [] => [[]]
  | c :: rest =>
      if (c =? sep)%N then [] :: split sep rest
      else match split sep rest with
           | part :: parts => (c :: part) :: parts
           | [] => [[c]]
           end
  end.

(** White space and line terminators, as [trim] removes them: TAB, LF,
    VT, FF, CR, SP, NBSP, U+1680, U+2000 to U+200A, LS, PS, U+202F,
    U+205F, U+3000 and the byte order mark. *)
Definition whiteSpace (c : N) : bool :=
  (between 9 13 c || (c =? 32) || (c =? 160) || (c =? 5760) || between 8192 8202 c
   || (c =? 8232) || (c =? 8233) || (c =? 8239) || (c =? 8287) || (c =? 12288)
   || (c =? 65279))%N.

Fixpoint trimStart (s : text) : text :=
  match s with
  | c :: rest => if whiteSpace c then trimStart rest else s
  | [] => []
  end.

Definition trimEnd (s : text) : text := rev (trimStart (rev s)).

Definition trim (s : text) : text := trimEnd (trimStart s).

(** [Boolean] on a string: is it non-empty? *)
Definition nonEmpty (s : text) : bool :=
  match s with [] => false | _ => true end.

Definition extractPlainValue (stdout : text) : text :=
  let clean := stripAnsi stdout in
  let lines := filter nonEmpty (map trim (split 10 clean)) in
  last lines [].

(** [s.indexOf(c)]; [None] is [-1]. *)
Fixpoint indexOf (c : N) (s : text) : option nat :=
  match s with
  | [] => None
  | x :: rest =>
      if (x =? c)%N then Some O
      else match indexOf c rest with
           | Some i => Some (S i)
           | None => None
           end
  end.

(** [s.lastIndexOf(c)] *)
Fixpoint lastIndexOf (c : N) (s : text) : option nat :=
  match s with
  | [] => None
  | x :: rest =>
      match lastIndexOf c rest with
      | Some i => Some (S i)
      | None => if (x =? c)%N then Some O else None
      end
  end.

(** [s.slice(from, to)] for [from <= to]. *)
Definition slice (from to : nat) (s : text) : text :=
  firstn (to - from) (skipn from s).

Section Json.

(** [JSON.parse] on a text; [None] when it throws. *)
Variable JSON_parse : text -> option value.

Definition extractJson (stdout : text) : value :=
  let clean := stripAnsi stdout in
  match indexOf 123 clean, lastIndexOf 125 clean with
  | Some start, Some end_ =>
      if (end_ <=? start)%nat then null
      else match JSON_parse (slice start (end_ + 1) clean) with
           | Some v => v
           | None => null                             (* catch *)
           end
  | _, _ => null
  end.

End Json.

End Utils.

(** ** Helpers of the partials router that consume the utilities *)

Module Partials.

Import Utils.

(** [n.toString(16)] *)
Definition toString16 (n : N) : text :=
  units (HexadecimalString.NilZero.string_of_uint (N.to_hex_uint n)).

(** [s.padStart(n, fill)] for a one-unit [fill]. *)
Definition padStart (n : nat) (fill : N) (s : text) : text :=
  repeat fill (n - length s) ++ s.

(** The replacement of one unit matched by [/[\u0080-\uffff]/]:
    ['\\u' + ch.charCodeAt(0).toString(16).padStart(4, '0')]. *)
Definition escapeUnit (ch : N) : text :=
  (92 :: 117 :: padStart 4 48 (toString16 ch))%N.

(** [asciiJson(obj)], on the text [JSON.stringify(obj)] returns. *)
Definition asciiJson (stringified : text) : text :=
  flat_map (fun ch => if between 128 65535 ch then escapeUnit ch else [ch]) stringified.

(** The argument of [parseInput], by what the function asks of it. *)
Inductive Raw : Type :=
| RawArray (items : list text)     (* Array.isArray(raw) *)
| RawString (s : text)             (* typeof raw === 'string' *)
| RawOther.

Definition parseInput (raw : Raw) : list text :=
  match raw with
  | RawArray items => items
  | RawString s =>
      if nonEmpty s then filter nonEmpty (map trim (split 43 s))
      else [units "text"]
  | RawOther => [units "text"]
  end.

End Partials.

(** ** Vocabulary of the properties *)

(** The step functions of the three [ws]-based revisions. *)
Definition revisions (env : ProcessEnv) : list (Event -> Handler unit) :=
  [Websocket.step env; IndexScript.step env; Index.step env].

(** Events that go to a process callback, a timer or the socket's own
    listeners, whatever the revision. *)
Definition process_event (e : Event) : bool :=
  match e with
  | Message _ | Resume _ => false
  | _ => true
  end.

(** The exit notification of a process of kind [k]. *)
Definition exit_event (k : ProcessKind) (p : nat) (code : Z) : Event :=
  match k with
  | PtyShell => PtyExit p code
  | ScriptChild _ => ChildClose p (Some code)
  end.

(** The frame [onExit] and [onClose] choose for an exit code. *)
Definition verdict (k : ProcessKind) (code : option Z) : Frame :=
  match code with
  | Some 0%Z => Success "登录成功！"
  | _ =>
      match k with
      | PtyShell => Error ("命令执行失败 (退出码: " ++ code_text code ++ ")")%string
      | ScriptChild err =>
          Error ("命令执行失败 (退出码: " ++ code_text code ++ ")" ++ ptyFailure err)%string
      end
  end.

(** What the input listeners registered on a connection write for one
    payload: one write per listener that holds a pty. *)
Definition forwarded (data : value) (shells : list (option nat)) : list Effect :=
  flat_map (fun shell => match shell with
                         | Some pty => [ShellWrite pty data]
                         | None => []
                         end) shells.

(** Every call the handlers can make.  The sends made from a process
    callback sit behind the test [ws.readyState === ws.OPEN]; the two
    replies to a connection message are sent as they are.  The close
    timer is always one second, the pseudo-terminal always 80 by 30, and
    a child process is always run through [/usr/bin/script]. *)
Inductive permitted : Effect -> Prop :=
| relayed data : permitted (WsSend OPEN (Output data))
| succeeded : permitted (WsSend OPEN (Success "登录成功！"))
| pty_failed exitCode :
    permitted (WsSend OPEN (Error ("命令执行失败 (退出码: " ++ number_to_string exitCode
                                      ++ ")")%string))
| child_failed code err :
    permitted (WsSend OPEN (Error ("命令执行失败 (退出码: " ++ code_text code ++ ")"
                                      ++ ptyFailure err)%string))
| unsupported rs : permitted (WsSend rs (Error "不支持的提供商"))
| start_failed rs error :
    permitted (WsSend rs (Error ("启动终端失败: " ++ message_text error)%string))
| closing : permitted WsClose
| timer : permitted (SetTimeoutClose 1000)
| pty_spawn call : permitted (PtySpawn 80 30 call)
| child_spawn call : file call = "/usr/bin/script" -> permitted (ChildSpawn call)
| written shell data : permitted (ShellWrite shell data)
| logged_error : permitted ConsoleError
| logged : permitted ConsoleLog.

Create HintDb bridge.
#[local] Hint Constructors permitted : bridge.
#[local] Hint Constructors Forall : bridge.

(** Unfolds the monad and its primitives, leaving strings alone. *)
Ltac run_handler :=
  cbv [ret bind emit get_readyState set_readyState ws_send ws_close after_close
       setTimeout_close await resume attach ws_on_message get_listeners running exits
       is_open snd fst app
       readyState processes listeners awaiting timers].

(** Case analysis on the innermost scrutinee, until none is left. *)
Ltac case_split :=
  repeat match goal with
         | |- context [match ?x with _ => _ end] =>
             lazymatch x with
             | context [match _ with _ => _ end] => fail
             | _ => destruct x
             end
         end.

(** ** Vocabulary of the further properties *)

(** The five callbacks a process drives. *)
Definition from_process (e : Event) : bool :=
  match e with
  | PtyData _ _ | PtyExit _ _ | ChildStdout _ _ | ChildStderr _ _ | ChildClose _ _ => true
  | _ => false
  end.

Definition is_write (e : Effect) : Prop :=
  match e with
  | ShellWrite _ _ => True
  | _ => False
  end.

(** A send made while the socket is seen open. *)
Definition sent_open (e : Effect) : Prop :=
  match e with
  | WsSend OPEN _ => True
  | _ => False
  end.

(** The command lines of the websocket module's table. *)
Definition tabled (cmd : string) : Prop :=
  exists flowId,
    (flowId = "gpt" \/ flowId = "qwen") /\ Websocket.command (str flowId) = Some cmd.

(** What the websocket module may spawn on a host: the shell on a tabled
    command line, on the pty or under the script wrapper. *)
Definition tabled_spawn (env : ProcessEnv) (e : Effect) : Prop :=
  match e with
  | PtySpawn cols rows call =>
      exists cmd,
        tabled cmd
        /\ call = mkSpawn (Websocket.shPath env) ["-lc"; cmd] (Websocket.home env)
                    (Some (Websocket.childPATH env)) (Some (Websocket.childTERM env))
  | ChildSpawn call =>
      exists cmd,
        tabled cmd
        /\ call = mkSpawn "/usr/bin/script"
                    ["-q"; "/dev/null"; Websocket.shPath env; "-lc"; cmd] (Websocket.home env)
                    (Some (Websocket.childPATH env)) (Some (Websocket.childTERM env))
  | _ => True
  end.

(** The suspended handlers of a connection hold tabled command lines. *)
Definition tabled_awaiting (c : Connection) : Prop :=
  Forall (fun k => match k with
                   | AwaitChildProcess _ cmd _ => tabled cmd
                   | AwaitNodePty _ => True
                   end) (awaiting c).

(** One connection message per flow identifier, each with its import
    resolved and its pty spawned. *)
Definition launches (flows : list string) : list Event :=
  flat_map (fun flowId => [Message (connect flowId); Resume allGood]) flows.

(** The chunks a fallback child writes, each on its stream ([true] is
    stderr). *)
Definition child_output (p : nat) (chunks : list (bool * string)) : list Event :=
  map (fun chunk : bool * string =>
         if fst chunk then ChildStderr p (snd chunk) else ChildStdout p (snd chunk))
      chunks.


(** The strings the pattern of [stripAnsi] matches: ESC and one unit of
    [[@-Z\\-_]], or ESC, [[], parameter units, intermediate units and a
    final unit. *)
Inductive ansi : Utils.text -> Prop :=
| ansi_two (c : N) : Utils.escFinal c = true -> ansi (Utils.ESC :: c :: nil)
| ansi_csi (params inters : Utils.text) (f : N) :
    Forall (fun c => Utils.csiParam c = true) params ->
    Forall (fun c => Utils.csiInter c = true) inters ->
    Utils.csiFinal f = true ->
    ansi (Utils.ESC :: 91%N :: params ++ inters ++ [f]).

(** The lower-case hexadecimal digit of a value below sixteen. *)
Definition hexDigit (d : N) : N :=
  if (d <? 10)%N then (48 + d)%N else (87 + d)%N.

(** [\uXXXX] for a code unit, digit by digit: four bits per digit, the
    highest first. *)
Definition fourHex (c : N) : Utils.text :=
  [92; 117; hexDigit (N.shiftr c 12); hexDigit (N.land (N.shiftr c 8) 15);
   hexDigit (N.land (N.shiftr c 4) 15); hexDigit (N.land c 15)]%N.

(** The code units from [c] on, [n] of them. *)
Fixpoint codeUnits (c : N) (n : nat) : list N :=
  match n with
  | O => []
  | S k => c :: codeUnits (N.succ c) k
  end.

Fixpoint text_eqb (s t : Utils.text) : bool :=
  match s, t with
  | [], [] => true
  | a :: s', b :: t' => (a =? b)%N && text_eqb s' t'
  | _, _ => false
  end.

(** * Properties *)

(** ** Runs *)

Lemma run_cons (step : Event -> Handler unit) c e events :
  run step c (e :: events) =
  (fst (run step (snd (fst (step e c))) events),
   snd (step e c) ++ snd (run step (snd (fst (step e c))) events)).
Proof.
  simpl. destruct (step e c) as [[u c1] out1].
  simpl. destruct (run step c1 events) as [c2 out2]. reflexivity.
Qed.

Lemma run_app (step : Event -> Handler unit) events1 :
  forall c events2,
    run step c (events1 ++ events2) =
    (fst (run step (fst (run step c events1)) events2),
     snd (run step c events1) ++ snd (run step (fst (run step c events1)) events2)).
Proof.
  induction events1 as [|e rest IH]; intros c events2.
  - simpl. destruct (run step c events2). reflexivity.
  - rewrite <- app_comm_cons, !run_cons, IH. simpl.
    rewrite app_assoc. reflexivity.
Qed.

(** What every step guarantees of its calls, every run guarantees. *)
Lemma run_Forall (step : Event -> Handler unit) (P : Effect -> Prop) :
  (forall e c, Forall P (snd (step e c))) ->
  forall events c, Forall P (snd (run step c events)).
Proof.
  intros Hstep events. induction events as [|e rest IH]; intros c.
  - constructor.
  - rewrite run_cons. simpl. apply Forall_app. split; [apply Hstep | apply IH].
Qed.

Lemma frames_app out1 out2 : frames (out1 ++ out2) = frames out1 ++ frames out2.
Proof. apply flat_map_app. Qed.

Lemma writes_app out1 out2 : writes (out1 ++ out2) = writes out1 ++ writes out2.
Proof. apply flat_map_app. Qed.

Lemma in_frames f out : In f (frames out) <-> exists rs, In (WsSend rs f) out.
Proof.
  unfold frames. rewrite in_flat_map. split.
  - intros [e [He Hf]]. destruct e; simpl in Hf; try contradiction.
    destruct Hf as [<- | []]. eauto.
  - intros [rs H]. exists (WsSend rs f). split; [assumption | left; reflexivity].
Qed.

(** ** Composition of handlers *)

Lemma bind_out {A B : Type} (m : Handler A) (k : A -> Handler B) c :
  snd (bind m k c) = snd (m c) ++ snd (k (fst (fst (m c))) (snd (fst (m c)))).
Proof.
  unfold bind. destruct (m c) as [[a c1] out1]. simpl.
  destruct (k a c1) as [[b c2] out2]. reflexivity.
Qed.

Lemma bind_Forall {A B : Type} (P : Effect -> Prop) (m : Handler A) (k : A -> Handler B) c :
  Forall P (snd (m c)) -> (forall a c1, Forall P (snd (k a c1))) ->
  Forall P (snd (bind m k c)).
Proof.
  intros Hm Hk. rewrite bind_out. apply Forall_app. split; [assumption | apply Hk].
Qed.

Lemma for_each_Forall {A : Type} (P : Effect -> Prop) (f : A -> Handler unit) (l : list A) :
  (forall a c, Forall P (snd (f a c))) -> forall c, Forall P (snd (for_each l f c)).
Proof.
  intros Hf. induction l as [|a rest IH]; intros c.
  - constructor.
  - simpl. apply bind_Forall; [apply Hf | intros; apply IH].
Qed.

(** A listener that does nothing and changes nothing, however often it
    is registered. *)
Lemma for_each_idle {A : Type} (f : A -> Handler unit) (l : list A) c :
  (forall a, f a c = (tt, c, [])) -> for_each l f c = (tt, c, []).
Proof.
  intros Hf. induction l as [|a rest IH].
  - reflexivity.
  - simpl. unfold bind. rewrite Hf, IH. reflexivity.
Qed.

(** ** Every call is a permitted one *)

Lemma onMessage_permitted message c : Forall permitted (snd (onMessage message c)).
Proof.
  unfold onMessage. destruct (JSON_parse message) as [data|]; [|run_handler; auto with bridge].
  destruct (get data "provider") as [provider|]; [|run_handler; auto with bridge].
  destruct (get data "type") as [type|]; [|run_handler; auto with bridge].
  destruct (truthy type), (truthy provider); run_handler; simpl; auto with bridge.
Qed.

Lemma startFailed_permitted error c : Forall permitted (snd (startFailed error c)).
Proof. unfold startFailed. run_handler. auto 8 with bridge. Qed.

Lemma onData_permitted data c : Forall permitted (snd (onData data c)).
Proof.
  unfold onData. run_handler. destruct c as [[] ? ? ? ?]; auto with bridge.
Qed.

Lemma onExit_permitted exitCode c : Forall permitted (snd (onExit exitCode c)).
Proof.
  unfold onExit. run_handler.
  destruct c as [[] ? ? ? ?]; auto with bridge.
  destruct (exitCode =? 0)%Z; auto 8 with bridge.
Qed.

Lemma onClose_permitted err code c : Forall permitted (snd (onClose err code c)).
Proof.
  unfold onClose. run_handler.
  destruct c as [[] ? ? ? ?]; auto with bridge.
  destruct code as [[| |]|]; auto 8 with bridge.
Qed.

Lemma running_silent p c : snd (running p c) = [] /\ snd (fst (running p c)) = c.
Proof.
  unfold running. destruct (nth_error (processes c) p) as [pr|]; [destruct (exited pr)|];
    split; reflexivity.
Qed.

Lemma callbacks_permitted e c : Forall permitted (snd (callbacks e c)).
Proof.
  destruct e; unfold callbacks; try (run_handler; auto with bridge; fail).
  - apply bind_Forall; [rewrite (proj1 (running_silent _ _)); constructor|].
    intros [[|]|] c1; try constructor. apply onData_permitted.
  - apply bind_Forall; [rewrite (proj1 (running_silent _ _)); constructor|].
    intros [[|]|] c1; try constructor.
    apply bind_Forall; [constructor | intros; apply onExit_permitted].
  - apply bind_Forall; [rewrite (proj1 (running_silent _ _)); constructor|].
    intros [[|]|] c1; try constructor. apply onData_permitted.
  - apply bind_Forall; [rewrite (proj1 (running_silent _ _)); constructor|].
    intros [[|]|] c1; try constructor. apply onData_permitted.
  - apply bind_Forall; [rewrite (proj1 (running_silent _ _)); constructor|].
    intros [[|]|] c1; try constructor.
    apply bind_Forall; [constructor | intros; apply onClose_permitted].
  - destruct (timers c); run_handler; auto with bridge.
Qed.

(** The three [ws]-based revisions, one step at a time. *)

Lemma websocket_onInput_permitted shell msg c :
  Forall permitted (snd (Websocket.onInput shell msg c)).
Proof.
  unfold Websocket.onInput.
  destruct (JSON_parse msg) as [inputData|]; [|constructor].
  destruct (get inputData "type") as [type|]; [|constructor].
  destruct (strict_eq type "input"), shell; try constructor.
  destruct (get inputData "data"); run_handler; auto with bridge.
Qed.

Lemma websocket_step_permitted env e c :
  Forall permitted (snd (Websocket.step env e c)).
Proof.
  destruct e; try apply callbacks_permitted.
  - unfold Websocket.step.
    apply bind_Forall; [constructor | intros inner c1].
    apply bind_Forall; [apply onMessage_permitted | intros _ c2].
    apply for_each_Forall. intros; apply websocket_onInput_permitted.
  - unfold Websocket.step.
    apply bind_Forall; [unfold resume; destruct (awaiting c); constructor|].
    intros [[provider|provider cmd err]|] c1; [| |constructor].
    + unfold Websocket.afterImportNodePty.
      destruct (imported o); [|apply startFailed_permitted].
      destruct (Websocket.command provider); [|run_handler; auto with bridge].
      apply bind_Forall; [run_handler; auto with bridge | intros _ c2].
      destruct (spawned o); run_handler; auto with bridge.
    + unfold Websocket.afterImportChildProcess.
      destruct (imported o); [|apply startFailed_permitted].
      apply bind_Forall; [run_handler; auto with bridge | intros _ c2].
      destruct (spawned o); [run_handler; auto with bridge | apply startFailed_permitted].
Qed.

Lemma indexScript_onInput_permitted msg c :
  Forall permitted (snd (IndexScript.onInput msg c)).
Proof.
  unfold IndexScript.onInput.
  destruct (JSON_parse msg) as [inputData|]; [|constructor].
  destruct (get inputData "type") as [type|]; [|constructor].
  destruct (strict_eq type "input"); constructor.
Qed.

Lemma indexScript_step_permitted env e c :
  Forall permitted (snd (IndexScript.step env e c)).
Proof.
  destruct e; try apply callbacks_permitted.
  - unfold IndexScript.step.
    apply bind_Forall; [constructor | intros inner c1].
    apply bind_Forall; [apply onMessage_permitted | intros _ c2].
    apply for_each_Forall. intros; apply indexScript_onInput_permitted.
  - unfold IndexScript.step.
    apply bind_Forall; [unfold resume; destruct (awaiting c); constructor|].
    intros [[provider|provider cmd err]|] c1; [| |constructor].
    + unfold IndexScript.afterImportNodePty.
      destruct (imported o); [|apply startFailed_permitted].
      destruct (IndexScript.command provider); [|run_handler; auto with bridge].
      destruct (IndexScript.target env (existsSync o) provider s) as [ptyFile ptyArgs].
      apply bind_Forall; [run_handler; auto with bridge | intros _ c2].
      destruct (spawned o); run_handler; auto with bridge.
    + unfold IndexScript.afterImportChildProcess.
      destruct (imported o); [|apply startFailed_permitted].
      destruct (IndexScript.target env (existsSync o) provider cmd) as [file args].
      apply bind_Forall; [run_handler; auto with bridge | intros _ c2].
      destruct (spawned o); [run_handler; auto with bridge | apply startFailed_permitted].
Qed.

Lemma index_onInput_permitted shell msg c :
  Forall permitted (snd (Index.onInput shell msg c)).
Proof.
  unfold Index.onInput.
  destruct (JSON_parse msg) as [inputData|]; [|constructor].
  destruct (get inputData "type") as [type|]; [|constructor].
  destruct (strict_eq type "input"); try constructor.
  destruct (get inputData "data"); run_handler; auto with bridge.
Qed.

Lemma index_step_permitted env e c :
  Forall permitted (snd (Index.step env e c)).
Proof.
  destruct e; try apply callbacks_permitted.
  - unfold Index.step.
    apply bind_Forall; [constructor | intros inner c1].
    apply bind_Forall; [apply onMessage_permitted | intros _ c2].
    apply for_each_Forall. intros [shell|] c3; [apply index_onInput_permitted | constructor].
  - unfold Index.step.
    apply bind_Forall; [unfold resume; destruct (awaiting c); constructor|].
    intros [[provider|provider cmd err]|] c1; try constructor.
    unfold Index.afterImportNodePty.
    destruct (imported o); [|apply startFailed_permitted].
    destruct (Index.command provider); [|run_handler; auto with bridge].
    apply bind_Forall; [run_handler; auto with bridge | intros _ c2].
    destruct (spawned o); [run_handler; auto with bridge | apply startFailed_permitted].
Qed.

Lemma step_permitted env step e c :
  In step (revisions env) -> Forall permitted (snd (step e c)).
Proof.
  intros [<- | [<- | [<- | []]]].
  - apply websocket_step_permitted.
  - apply indexScript_step_permitted.
  - apply index_step_permitted.
Qed.

Lemma run_permitted env step c events :
  In step (revisions env) -> Forall permitted (snd (run step c events)).
Proof.
  intros Hstep. apply run_Forall. intros e c1. apply (step_permitted env); assumption.
Qed.

Lemma permitted_send rs f :
  permitted (WsSend rs f) ->
  rs = OPEN \/ f = Error "不支持的提供商"
  \/ exists error, f = Error ("启动终端失败: " ++ message_text error)%string.
Proof.
  intros H. remember (WsSend rs f) as e eqn:E.
  destruct H; try discriminate E; injection E as <- <-; auto.
  right; right. eexists. reflexivity.
Qed.

Lemma permitted_not_missing rs f :
  permitted (WsSend rs f) -> f <> Error "请指定模型提供商".
Proof.
  intros H. remember (WsSend rs f) as e eqn:E.
  destruct H; try discriminate E; injection E as <- <-;
    intros E'; try discriminate E'; injection E' as E'; cbn in E'; discriminate.
Qed.

(** ** The connection message *)

Lemma falsy_is_not_input type : truthy type = false -> strict_eq type "input" = false.
Proof.
  destruct type as [| | | |s| |]; try reflexivity.
  destruct s; [reflexivity | discriminate].
Qed.

(** A message whose [provider] is truthy and whose [type] is falsy
    suspends the first listener at its import ... *)
Lemma onMessage_connect data provider type c :
  get data "provider" = Some provider -> get data "type" = Some type ->
  truthy type = false -> truthy provider = true ->
  onMessage (Json data) c = await (AwaitNodePty provider) c.
Proof.
  intros Hp Ht Hft Htp. unfold onMessage, JSON_parse. cbv beta iota.
  rewrite Hp, Ht, Hft, Htp. reflexivity.
Qed.

(** ... and no input listener of any revision reacts to it. *)
Lemma websocket_onInput_other shell data type c :
  get data "type" = Some type -> strict_eq type "input" = false ->
  Websocket.onInput shell (Json data) c = (tt, c, []).
Proof.
  intros Ht Hne. unfold Websocket.onInput, JSON_parse. cbv beta iota.
  rewrite Ht, Hne. reflexivity.
Qed.

Lemma index_onInput_other shell data type c :
  get data "type" = Some type -> strict_eq type "input" = false ->
  Index.onInput shell (Json data) c = (tt, c, []).
Proof.
  intros Ht Hne. unfold Index.onInput, JSON_parse. cbv beta iota.
  rewrite Ht, Hne. reflexivity.
Qed.

(** In the [index.ts] that has the fallback, an input listener does
    nothing at all: the call [shell.write] is never reached. *)
Lemma indexScript_onInput_idle msg c : IndexScript.onInput msg c = (tt, c, []).
Proof.
  unfold IndexScript.onInput.
  destruct (JSON_parse msg) as [inputData|]; [|reflexivity].
  destruct (get inputData "type") as [type|]; [|reflexivity].
  destruct (strict_eq type "input"); reflexivity.
Qed.

Lemma step_connect env step data provider type c :
  In step (revisions env) ->
  get data "provider" = Some provider -> get data "type" = Some type ->
  truthy type = false -> truthy provider = true ->
  step (Message (Json data)) c =
  (tt, mkConnection (readyState c) (processes c) (listeners c)
         (awaiting c ++ [AwaitNodePty provider]) (timers c), []).
Proof.
  intros Hstep Hp Ht Hft Htp.
  pose proof (falsy_is_not_input type Hft) as Hne.
  destruct Hstep as [<- | [<- | [<- | []]]];
    unfold Websocket.step, IndexScript.step, Index.step, bind, get_listeners;
    rewrite (onMessage_connect data provider type) by assumption;
    unfold await; (rewrite for_each_idle; [reflexivity|]).
  - intros shell. apply (websocket_onInput_other shell data type); assumption.
  - intros shell. apply indexScript_onInput_idle.
  - intros [pty|]; [apply (index_onInput_other pty data type); assumption | reflexivity].
Qed.

(** ** The handler resumes *)

Lemma unsupported_everywhere provider :
  provider <> str "gpt" -> provider <> str "qwen" ->
  Websocket.command provider = None
  /\ IndexScript.command provider = None
  /\ Index.command provider = None.
Proof.
  intros Hg Hq.
  unfold Websocket.command, IndexScript.command, Index.command, strict_eq.
  destruct provider as [| | | |s| |]; try (repeat split; reflexivity).
  destruct (String.eqb_spec s "gpt") as [->|_]; [contradiction Hg; reflexivity|].
  destruct (String.eqb_spec s "qwen") as [->|_]; [contradiction Hq; reflexivity|].
  repeat split; reflexivity.
Qed.

(** The import rejects: the outer [catch] reports and closes. *)
Lemma resume_import_rejected env step provider error o c rest :
  In step (revisions env) ->
  awaiting c = AwaitNodePty provider :: rest -> imported o = Throws error ->
  step (Resume o) c =
  startFailed error
    (mkConnection (readyState c) (processes c) (listeners c) rest (timers c)).
Proof.
  intros Hstep Haw Himp.
  destruct Hstep as [<- | [<- | [<- | []]]];
    unfold Websocket.step, IndexScript.step, Index.step, bind, resume; rewrite Haw;
    unfold Websocket.afterImportNodePty, IndexScript.afterImportNodePty,
      Index.afterImportNodePty;
    rewrite Himp;
    match goal with |- context [startFailed ?e ?c1] => destruct (startFailed e c1) as [[[] c2] out] end;
    reflexivity.
Qed.

(** The import resolves and the flow is not supported: the reply, and
    nothing else. *)
Lemma resume_unsupported env step provider o c rest :
  In step (revisions env) ->
  awaiting c = AwaitNodePty provider :: rest -> imported o = Ok ->
  provider <> str "gpt" -> provider <> str "qwen" ->
  step (Resume o) c =
  (tt, mkConnection (readyState c) (processes c) (listeners c) rest (timers c),
   [WsSend (readyState c) (Error "不支持的提供商")]).
Proof.
  intros Hstep Haw Himp Hg Hq.
  destruct (unsupported_everywhere provider Hg Hq) as [Hw [Hs Hi]].
  destruct Hstep as [<- | [<- | [<- | []]]];
    unfold Websocket.step, IndexScript.step, Index.step, bind, resume; rewrite Haw;
    unfold Websocket.afterImportNodePty, IndexScript.afterImportNodePty,
      Index.afterImportNodePty;
    rewrite Himp, ?Hw, ?Hs, ?Hi; reflexivity.
Qed.

(** The import resolves, the flow is supported and [pty.spawn] returns:
    one spawn, one more process, one more input listener. *)
Lemma resume_spawns_pty env step flowId o c rest :
  In step (revisions env) ->
  awaiting c = AwaitNodePty (str flowId) :: rest ->
  flowId = "gpt" \/ flowId = "qwen" -> imported o = Ok -> spawned o = Ok ->
  exists call shell,
    step (Resume o) c =
    (tt, mkConnection (readyState c) (processes c ++ [mkProcess PtyShell false])
           (listeners c ++ [shell]) rest (timers c),
     [PtySpawn 80 30 call]).
Proof.
  intros Hstep Haw Hflow Himp Hsp.
  destruct Hstep as [<- | [<- | [<- | []]]]; destruct Hflow as [-> | ->];
    unfold Websocket.step, IndexScript.step, Index.step, bind, resume; rewrite Haw;
    unfold Websocket.afterImportNodePty, IndexScript.afterImportNodePty,
      Index.afterImportNodePty;
    rewrite Himp; cbn [Websocket.command IndexScript.command Index.command strict_eq
                         String.eqb Ascii.eqb Bool.eqb];
    try (destruct (IndexScript.target env (existsSync o) _ _) as [ptyFile ptyArgs]);
    unfold bind; rewrite Hsp; do 2 eexists; reflexivity.
Qed.

(** ** Process callbacks on an open socket *)

Lemma step_process_event env step e :
  In step (revisions env) -> process_event e = true -> step e = callbacks e.
Proof.
  intros [<- | [<- | [<- | []]]] He; destruct e; try discriminate He; reflexivity.
Qed.

Lemma callbacks_pty_data c p data :
  readyState c = OPEN -> nth_error (processes c) p = Some (mkProcess PtyShell false) ->
  callbacks (PtyData p data) c = (tt, c, [WsSend OPEN (Output data)]).
Proof.
  intros Hopen Hp. destruct c as [rs ps ls aw tm]. simpl in Hopen, Hp. subst rs.
  unfold callbacks, bind, running. cbn [processes]. rewrite Hp. reflexivity.
Qed.

Lemma callbacks_exit c k p code :
  readyState c = OPEN -> nth_error (processes c) p = Some (mkProcess k false) ->
  callbacks (exit_event k p code) c =
  (tt, mkConnection OPEN (mark_exited p (processes c)) (listeners c) (awaiting c)
         (timers c ++ [1000]),
   [WsSend OPEN (verdict k (Some code)); SetTimeoutClose 1000]).
Proof.
  intros Hopen Hp. destruct c as [rs ps ls aw tm]. simpl in Hopen, Hp. subst rs.
  destruct k as [|err]; unfold exit_event, callbacks, bind, running; cbn [processes];
    rewrite Hp; cbn [exited kind].
  - unfold exits, onExit, bind, get_readyState. cbn [readyState is_open].
    unfold verdict, code_text.
    destruct code; reflexivity.
  - unfold exits, onClose, bind, get_readyState. cbn [readyState is_open].
    unfold verdict, code_text.
    destruct code; reflexivity.
Qed.

Lemma relay_in_order env step p chunks :
  In step (revisions env) ->
  forall c,
    readyState c = OPEN -> nth_error (processes c) p = Some (mkProcess PtyShell false) ->
    run step c (map (PtyData p) chunks) =
    (c, map (fun data => WsSend OPEN (Output data)) chunks).
Proof.
  intros Hstep. induction chunks as [|data rest IH]; intros c Hopen Hp.
  - reflexivity.
  - cbn [map]. rewrite run_cons.
    rewrite (step_process_event env step (PtyData p data) Hstep eq_refl).
    rewrite (callbacks_pty_data c p data Hopen Hp). cbn [fst snd].
    rewrite (IH c Hopen Hp). reflexivity.
Qed.

Lemma frames_of_outputs chunks :
  frames (map (fun data => WsSend OPEN (Output data)) chunks) = map Output chunks.
Proof. induction chunks as [|d rest IH]; [reflexivity | simpl; rewrite IH; reflexivity]. Qed.

Lemma string_app_assoc (s t u : string) : ((s ++ t) ++ u = s ++ t ++ u)%string.
Proof. induction s as [|a s IH]; [reflexivity | simpl; rewrite IH; reflexivity]. Qed.

Lemma string_app_nil_r (s : string) : (s ++ "" = s)%string.
Proof. induction s as [|a s IH]; [reflexivity | simpl; rewrite IH; reflexivity]. Qed.

Lemma verdict_nonzero k code :
  code <> 0%Z ->
  verdict k (Some code) =
  Error ("命令执行失败 (退出码: " ++ number_to_string code ++ ")"
           ++ match k with PtyShell => "" | ScriptChild err => ptyFailure err end)%string.
Proof.
  intros Hne. unfold verdict, code_text.
  destruct code as [|n|n]; [contradiction Hne; reflexivity | |];
    destruct k; reflexivity.
Qed.

(** ** Input listeners *)

Lemma websocket_listeners_forward data shells c :
  for_each shells (fun shell => Websocket.onInput shell (input data)) c
  = (tt, c, forwarded data shells).
Proof.
  revert c. induction shells as [|shell rest IH]; intros c.
  - reflexivity.
  - cbn [for_each]. unfold bind.
    destruct shell as [pty|].
    + change (Websocket.onInput (Some pty) (input data) c) with (tt, c, [ShellWrite pty data]).
      cbv beta iota. rewrite IH. reflexivity.
    + change (Websocket.onInput None (input data) c) with (tt, c, @nil Effect).
      cbv beta iota. rewrite IH. reflexivity.
Qed.

(** An input frame is written at once, payload untouched, to the pty of
    every listener, and changes nothing on the connection. *)
Lemma websocket_step_input env data c :
  Websocket.step env (Message (input data)) c = (tt, c, forwarded data (listeners c)).
Proof.
  unfold Websocket.step, bind, get_listeners.
  change (onMessage (input data) c) with (tt, c, @nil Effect). cbv beta iota.
  rewrite websocket_listeners_forward. reflexivity.
Qed.

Lemma callbacks_never_write e c : writes (snd (callbacks e c)) = [].
Proof.
  destruct c as [rs ps ls aw tm].
  destruct e; unfold callbacks, onData, onExit, onClose; run_handler;
    case_split; reflexivity.
Qed.

Lemma onMessage_never_writes message c : writes (snd (onMessage message c)) = [].
Proof.
  unfold onMessage. run_handler. case_split; reflexivity.
Qed.

Lemma indexScript_step_never_writes env e c :
  writes (snd (IndexScript.step env e c)) = [].
Proof.
  destruct e; try apply callbacks_never_write.
  - unfold IndexScript.step, bind, get_listeners.
    pose proof (onMessage_never_writes message c) as H.
    destruct (onMessage message c) as [[[] c1] out1].
    rewrite for_each_idle by (intros; apply indexScript_onInput_idle).
    rewrite app_nil_r. exact H.
  - destruct c as [rs ps ls aw tm].
    unfold IndexScript.step, IndexScript.afterImportNodePty,
      IndexScript.afterImportChildProcess, startFailed.
    run_handler. case_split; reflexivity.
Qed.

(** In the [index.ts] that has the fallback, no run ever calls
    [shell.write]: its input listener names a [shell] that is not in
    scope. *)
Lemma indexScript_never_writes env events :
  forall c, writes (snd (run (IndexScript.step env) c events)) = [].
Proof.
  induction events as [|e rest IH]; intros c.
  - reflexivity.
  - rewrite run_cons. cbn [snd]. rewrite writes_app, indexScript_step_never_writes, IH.
    reflexivity.
Qed.

(** ** Spawns *)

(** The [else] branch of [if (scriptPath)] in [index.ts], the spawn
    with plain pipes, is never taken: [scriptPath] is a non-empty
    constant. *)
Lemma plain_spawn_is_unreachable env fallbackFile fallbackArgs :
  IndexScript.fallbackSpawn env fallbackFile fallbackArgs =
  mkSpawn "/usr/bin/script" ("-q" :: "/dev/null" :: fallbackFile :: fallbackArgs)
    (IndexScript.home env) (Some (IndexScript.childPATH env)) (Some (IndexScript.childTERM env)).
Proof. reflexivity. Qed.

Lemma child_spawns_use_the_wrapper env step c events call :
  In step (revisions env) ->
  In (ChildSpawn call) (snd (run step c events)) -> file call = "/usr/bin/script".
Proof.
  intros Hstep Hin.
  pose proof (run_permitted env step c events Hstep) as H.
  rewrite Forall_forall in H. specialize (H _ Hin). inversion H. assumption.
Qed.

(** ** The first [index.ts]

    Its callbacks differ from the later ones on three counts: the relay
    and the exit callback send without a test of the socket, a message
    that does not parse leaves [onMessage] as an exception, and the
    missing-provider reply can be reached. *)
Lemma first_index_differs c data exitCode :
  snd (IndexHono.onData data c) = [WsSend (readyState c) (Output data)]
  /\ (exists f, snd (IndexHono.onExit exitCode c) = [WsSend (readyState c) f; WsClose])
  /\ IndexHono.onMessage Malformed c = (IndexHono.Rejected, c, [])
  /\ IndexHono.onMessage (Json (object [])) c
     = (IndexHono.Returned, c, [WsSend (readyState c) (Error "请指定模型提供商")]).
Proof.
  repeat split. unfold IndexHono.onExit. destruct (exitCode =? 0)%Z; eexists; reflexivity.
Qed.

(** * The statements of the specification *)

(** ** A second connection message *)

(** C1 fails on the code.  The first listener keeps no record of a
    launch: in each [ws]-based revision, a connection message naming a
    supported flow, delivered to a connection with any number of
    processes attached, spawns and attaches one more once its import
    resolves. *)
Theorem every_connect_message_spawns_a_process env step c flowId :
  In step (revisions env) ->
  flowId = "gpt" \/ flowId = "qwen" -> awaiting c = [] ->
  let r := run step c [Message (connect flowId); Resume allGood] in
  processes (fst r) = processes c ++ [mkProcess PtyShell false]
  /\ attached (fst r) = attached c ++ [mkProcess PtyShell false]
  /\ exists call, snd r = [PtySpawn 80 30 call].
Proof.
  intros Hstep Hflow Haw r. subst r.
  assert (Htp : truthy (str flowId) = true) by (destruct Hflow as [-> | ->]; reflexivity).
  rewrite run_cons.
  rewrite (step_connect env step (object [("provider", str flowId)]) (str flowId) undefined)
    by (assumption || reflexivity).
  cbn [fst snd]. rewrite Haw. cbn [app]. rewrite run_cons.
  destruct (resume_spawns_pty env step flowId allGood
              (mkConnection (readyState c) (processes c) (listeners c)
                 [AwaitNodePty (str flowId)] (timers c)) [] Hstep eq_refl Hflow eq_refl eq_refl)
    as [call [shell Hresume]].
  rewrite Hresume. cbn [fst snd run processes]. unfold attached. cbn [processes].
  rewrite filter_app. cbn [filter exited negb].
  split; [reflexivity | split; [reflexivity | exists call; reflexivity]].
Qed.

Lemma second_connect_message_witness :
  let c := fst (run (Websocket.step host) fresh [Message (connect "gpt"); Resume allGood]) in
  let r := run (Websocket.step host) c [Message (connect "gpt"); Resume allGood] in
  (attached c = [mkProcess PtyShell false] /\ awaiting c = [])
  /\ processes (fst r) = processes c ++ [mkProcess PtyShell false]
  /\ attached (fst r) = attached c ++ [mkProcess PtyShell false]
  /\ exists call, snd r = [PtySpawn 80 30 call].
Proof.
  split; [split; reflexivity|].
  apply (every_connect_message_spawns_a_process host (Websocket.step host)
           (fst (run (Websocket.step host) fresh [Message (connect "gpt"); Resume allGood]))
           "gpt"); [left; reflexivity | left; reflexivity | reflexivity].
Defined.

(** The same two messages run from the start, revision by revision: two
    spawns, two processes attached. *)
Lemma two_connect_messages_two_processes :
  let twice := [Message (connect "gpt"); Resume allGood;
                Message (connect "gpt"); Resume allGood] in
  Forall (fun step =>
            length (spawns (snd (run step fresh twice))) = 2
            /\ attached (fst (run step fresh twice))
               = [mkProcess PtyShell false; mkProcess PtyShell false])
         (revisions host).
Proof. repeat constructor. Qed.

(** ** An unsupported flow identifier *)

(** C2, as the code has it.  A connection message whose [provider] is
    neither ['gpt'] nor ['qwen'], on a fresh connection, in each
    [ws]-based revision: when the handler resumes, exactly one frame is
    sent and it is an error frame; nothing is spawned; and when the
    import has resolved the frame is the "unsupported provider" reply,
    [ws.close()] is not called and the connection is as fresh as before
    (open, no process, no listener). *)
Theorem unsupported_flow_gets_one_error_reply env step data provider type o :
  In step (revisions env) ->
  get data "provider" = Some provider -> get data "type" = Some type ->
  truthy type = false -> truthy provider = true ->
  provider <> str "gpt" -> provider <> str "qwen" ->
  let r := run step fresh [Message (Json data); Resume o] in
  (exists message, frames (snd r) = [Error message])
  /\ spawns (snd r) = []
  /\ (imported o = Ok ->
      snd r = [WsSend OPEN (Error "不支持的提供商")] /\ fst r = fresh).
Proof.
  intros Hstep Hp Ht Hft Htp Hg Hq r. subst r.
  rewrite run_cons, (step_connect env step data provider type) by assumption.
  cbn [fst snd fresh readyState processes listeners awaiting timers app].
  rewrite run_cons.
  destruct (imported o) as [|error] eqn:Himp.
  - rewrite (resume_unsupported env step provider o
               (mkConnection OPEN [] [] [AwaitNodePty provider] []) [] Hstep eq_refl Himp Hg Hq).
    cbn. repeat split. eexists; reflexivity.
  - rewrite (resume_import_rejected env step provider error o
               (mkConnection OPEN [] [] [AwaitNodePty provider] []) [] Hstep eq_refl Himp).
    cbn. repeat split; [eexists; reflexivity | discriminate | discriminate].
Qed.

Lemma unsupported_flow_witness :
  let data := object [("provider", str "claude")] in
  let r := run (Websocket.step host) fresh [Message (Json data); Resume allGood] in
  (get data "provider" = Some (str "claude") /\ truthy (str "claude") = true)
  /\ (exists message, frames (snd r) = [Error message])
  /\ spawns (snd r) = []
  /\ (imported allGood = Ok ->
      snd r = [WsSend OPEN (Error "不支持的提供商")] /\ fst r = fresh).
Proof.
  split; [split; reflexivity|].
  apply (unsupported_flow_gets_one_error_reply host (Websocket.step host)
           (object [("provider", str "claude")]) (str "claude") undefined allGood);
    try reflexivity; try discriminate.
  left; reflexivity.
Defined.

(** C2 as stated fails: after the reply to ['claude'] the handlers have
    not called [ws.close()] (neither directly nor through a timer), the
    socket is still open, and a later connection message on the same
    socket starts a session whose output is relayed. *)
Lemma unsupported_flow_leaves_the_socket_open :
  let rejected := [Message (connect "claude"); Resume allGood] in
  let later := [Message (connect "qwen"); Resume allGood; PtyData 0 "scan QR"] in
  (closes (snd (run (Websocket.step host) fresh rejected)) = []
   /\ readyState (fst (run (Websocket.step host) fresh rejected)) = OPEN
   /\ frames (snd (run (Websocket.step host) fresh (rejected ++ later)))
      = [Error "不支持的提供商"; Output "scan QR"])
  /\ (closes (snd (run (IndexScript.step host) fresh rejected)) = []
      /\ readyState (fst (run (IndexScript.step host) fresh rejected)) = OPEN
      /\ frames (snd (run (IndexScript.step host) fresh (rejected ++ later)))
         = [Error "不支持的提供商"; Output "scan QR"]).
Proof. vm_compute. repeat split. Qed.

(** ** Starting a session *)

(** C3, as the code has it.  For ['gpt'] and ['qwen'], a first message
    that carries the flow identifier in [provider] and has no truthy
    [type] starts the session (one process is attached once the pty is
    spawned); when the process then emits chunks and exits while the
    socket is open, the frames sent are the chunks as output frames, in
    order, followed by one terminal frame: the first output frame
    precedes the terminal frame.  This holds in each [ws]-based revision. *)
Theorem connect_message_starts_the_session env step flowId data type chunk chunks exitCode :
  In step (revisions env) ->
  flowId = "gpt" \/ flowId = "qwen" ->
  get data "provider" = Some (str flowId) -> get data "type" = Some type ->
  truthy type = false ->
  let launch := [Message (Json data); Resume allGood] in
  let r := run step fresh (launch ++ map (PtyData 0) (chunk :: chunks) ++ [PtyExit 0 exitCode]) in
  attached (fst (run step fresh launch)) = [mkProcess PtyShell false]
  /\ exists terminal,
       frames (snd r) = Output chunk :: map Output chunks ++ [terminal]
       /\ is_terminal terminal = true.
Proof.
  intros Hstep Hflow Hp Ht Hft launch r. subst launch r.
  assert (Htp : truthy (str flowId) = true) by (destruct Hflow as [-> | ->]; reflexivity).
  assert (Hlaunch : exists call shell,
             run step fresh [Message (Json data); Resume allGood] =
             (mkConnection OPEN [mkProcess PtyShell false] [shell] [] [], [PtySpawn 80 30 call])).
  { rewrite run_cons, (step_connect env step data (str flowId) type) by assumption.
    cbn [fst snd fresh readyState processes listeners awaiting timers app].
    rewrite run_cons.
    destruct (resume_spawns_pty env step flowId allGood
                (mkConnection OPEN [] [] [AwaitNodePty (str flowId)] []) []
                Hstep eq_refl Hflow eq_refl eq_refl) as [call [shell Hresume]].
    rewrite Hresume. exists call, shell. reflexivity. }
  destruct Hlaunch as [call [shell Hlaunch]].
  rewrite run_app, Hlaunch. cbn [fst snd].
  split; [reflexivity|].
  rewrite run_app.
  rewrite (relay_in_order env step 0 (chunk :: chunks) Hstep) by reflexivity.
  cbn [fst snd]. rewrite run_cons.
  rewrite (step_process_event env step (PtyExit 0 exitCode) Hstep eq_refl).
  rewrite (callbacks_exit _ PtyShell 0 exitCode) by reflexivity.
  cbn [fst snd run].
  exists (verdict PtyShell (Some exitCode)). split.
  - rewrite !frames_app, frames_of_outputs. reflexivity.
  - unfold verdict. destruct exitCode; reflexivity.
Qed.

Lemma connect_message_witness :
  let data := object [("provider", str "qwen")] in
  let launch := [Message (Json data); Resume allGood] in
  let r := run (Websocket.step host) fresh
             (launch ++ map (PtyData 0) ["scan QR"] ++ [PtyExit 0 0%Z]) in
  (In (Websocket.step host) (revisions host)
   /\ get data "provider" = Some (str "qwen") /\ get data "type" = Some undefined)
  /\ attached (fst (run (Websocket.step host) fresh launch)) = [mkProcess PtyShell false]
  /\ exists terminal,
       frames (snd r) = Output "scan QR" :: map Output [] ++ [terminal]
       /\ is_terminal terminal = true.
Proof.
  split; [repeat split; left; reflexivity|].
  apply (connect_message_starts_the_session host (Websocket.step host) "qwen"
           (object [("provider", str "qwen")]) undefined "scan QR" [] 0%Z);
    [left; reflexivity | right; reflexivity | reflexivity | reflexivity | reflexivity].
Defined.

(** C3 as stated fails: the frame [{"type":"start","provider":"gpt"}],
    whose [type] is truthy, does not pass the first listener's test.
    Nothing is awaited, spawned or sent, in the websocket module and in
    [index.ts] alike, and a later import or process event finds nothing
    to act on. *)
Lemma start_frame_is_ignored :
  run (Websocket.step host) fresh [Message (start "gpt"); Resume allGood; PtyData 0 "scan QR"]
  = (fresh, [])
  /\ run (Index.step host) fresh [Message (start "gpt"); Resume allGood; PtyData 0 "scan QR"]
     = (fresh, []).
Proof. vm_compute. split; reflexivity. Qed.

(** ** Exit codes *)

(** C4.  In each [ws]-based revision, when a running process exits while
    the socket is open and the one-second timer then fires, the calls
    made are exactly: one send, [setTimeout(() => ws.close(), 1000)],
    [ws.close()].  The frame sent is the success frame for code 0; for
    any other code it is an error frame whose message contains the code
    in decimal and, for a process started through the fallback after
    [pty.spawn] threw an error with a message, that message. *)
Theorem exit_code_decides_the_terminal_frame env step c k p code :
  In step (revisions env) ->
  readyState c = OPEN -> nth_error (processes c) p = Some (mkProcess k false) ->
  let r := run step c [exit_event k p code; TimerFires] in
  exists f,
    snd r = [WsSend OPEN f; SetTimeoutClose 1000; WsClose]
    /\ readyState (fst r) = CLOSING
    /\ (code = 0%Z -> f = Success "登录成功！")
    /\ (code <> 0%Z ->
        exists message,
          f = Error message
          /\ contains message (number_to_string code)
          /\ forall reason,
               k = ScriptChild (Some reason) -> reason <> "" -> contains message reason).
Proof.
  intros Hstep Hopen Hp r. subst r.
  assert (Hev : process_event (exit_event k p code) = true) by (destruct k; reflexivity).
  rewrite run_cons, (step_process_event env step _ Hstep Hev).
  rewrite (callbacks_exit c k p code Hopen Hp). cbn [fst snd].
  rewrite run_cons, (step_process_event env step TimerFires Hstep eq_refl).
  exists (verdict k (Some code)). split; [|split; [|split]].
  - unfold callbacks. cbn [timers]. destruct (timers c); reflexivity.
  - unfold callbacks. cbn [timers]. destruct (timers c); reflexivity.
  - intros ->. reflexivity.
  - intros Hne. rewrite (verdict_nonzero k code Hne). eexists. split; [reflexivity|]. split.
    + eexists. eexists. reflexivity.
    + intros reason -> Hreason. unfold ptyFailure.
      destruct (String.eqb_spec reason "") as [E|_]; [contradiction|].
      exists ("命令执行失败 (退出码: " ++ number_to_string code ++ ")" ++ "，pty 启动失败: ")%string.
      exists "". rewrite string_app_nil_r, !string_app_assoc. reflexivity.
Qed.

Lemma exit_code_witness :
  let c := fst (run (Websocket.step host) fresh
                  [Message (connect "gpt"); Resume (spawnThrows (Some "forkpty(3) failed."));
                   Resume allGood]) in
  let k := ScriptChild (Some "forkpty(3) failed.") in
  let r := run (Websocket.step host) c [exit_event k 0 1%Z; TimerFires] in
  (readyState c = OPEN /\ nth_error (processes c) 0 = Some (mkProcess k false))
  /\ exists f,
       snd r = [WsSend OPEN f; SetTimeoutClose 1000; WsClose]
       /\ readyState (fst r) = CLOSING
       /\ (1%Z = 0%Z -> f = Success "登录成功！")
       /\ (1%Z <> 0%Z ->
           exists message,
             f = Error message
             /\ contains message (number_to_string 1)
             /\ forall reason,
                  k = ScriptChild (Some reason) -> reason <> "" -> contains message reason).
Proof.
  split; [split; reflexivity|].
  apply (exit_code_decides_the_terminal_frame host (Websocket.step host)
           (fst (run (Websocket.step host) fresh
                   [Message (connect "gpt"); Resume (spawnThrows (Some "forkpty(3) failed."));
                    Resume allGood]))
           (ScriptChild (Some "forkpty(3) failed.")) 0 1%Z);
    [left; reflexivity | reflexivity | reflexivity].
Defined.

(** The scenario of the specification: ['qwen'], a process that prints
    and exits with code 0; and a fallback child that exits with code 1. *)
Example qwen_scan_then_success :
  snd (run (Websocket.step host) fresh
         [Message (connect "qwen"); Resume allGood; PtyData 0 "scan QR"; PtyExit 0 0%Z;
          TimerFires])
  = [PtySpawn 80 30
       (mkSpawn "/bin/bash"
          ["-lc"; "openclaw models auth login --provider qwen-portal --set-default"]
          "/home/operator"
          (Some "/home/operator/.local/bin:/usr/local/bin:/usr/bin:/bin:/usr/sbin:/sbin")
          (Some "xterm-256color"));
     WsSend OPEN (Output "scan QR");
     WsSend OPEN (Success "登录成功！");
     SetTimeoutClose 1000;
     WsClose]
  /\ frames (snd (run (Websocket.step host) fresh
                    [Message (connect "qwen"); Resume (spawnThrows (Some "forkpty(3) failed."));
                     Resume allGood; ChildClose 0 (Some 1%Z)]))
     = [Error "命令执行失败 (退出码: 1)，pty 启动失败: forkpty(3) failed."].
Proof. split; reflexivity. Qed.

(** ** The liveness test before a send *)

(** C5, as the code has it.  In every run of a [ws]-based revision, from
    any connection, a frame is sent either while [ws.readyState] is [OPEN]
    (every output frame, every success frame and every exit-code error
    frame: their sends sit behind the test) or it is one of the two
    replies to a connection message, "unsupported provider" and "terminal
    start failed", which are sent without a test. *)
Theorem sends_are_guarded_except_start_replies env step c events rs f :
  In step (revisions env) ->
  In (WsSend rs f) (snd (run step c events)) ->
  rs = OPEN
  \/ f = Error "不支持的提供商"
  \/ exists error, f = Error ("启动终端失败: " ++ message_text error)%string.
Proof.
  intros Hstep Hin. apply permitted_send.
  pose proof (run_permitted env step c events Hstep) as H.
  rewrite Forall_forall in H. apply H. assumption.
Qed.

Lemma guarded_send_witness :
  let trace := [Message (connect "qwen"); Resume allGood; PtyData 0 "scan QR"] in
  In (WsSend OPEN (Output "scan QR")) (snd (run (Websocket.step host) fresh trace))
  /\ (OPEN = OPEN
      \/ Output "scan QR" = Error "不支持的提供商"
      \/ exists error,
           Output "scan QR" = Error ("启动终端失败: " ++ message_text error)%string).
Proof.
  assert (Hin : In (WsSend OPEN (Output "scan QR"))
                  (snd (run (Websocket.step host) fresh
                          [Message (connect "qwen"); Resume allGood; PtyData 0 "scan QR"])))
    by (right; left; reflexivity).
  split; [exact Hin|].
  apply (sends_are_guarded_except_start_replies host (Websocket.step host) fresh
           [Message (connect "qwen"); Resume allGood; PtyData 0 "scan QR"]);
    [left; reflexivity | exact Hin].
Defined.

(** C5 as stated fails: the two replies to a connection message are sent
    without looking at the socket.  When the socket closes while the
    handler waits for its import, the reply is sent on the closed
    socket. *)
Lemma reply_is_sent_on_a_closed_socket :
  snd (run (Websocket.step host) fresh
         [Message (connect "claude"); SocketCloses; Resume allGood])
  = [ConsoleLog; WsSend CLOSED (Error "不支持的提供商")]
  /\ snd (run (Websocket.step host) fresh
            [Message (connect "gpt"); SocketCloses;
             Resume (mkOutcome (Throws (Some "Cannot find module 'node-pty'")) false Ok)])
     = [ConsoleLog; WsSend CLOSED (Error "启动终端失败: Cannot find module 'node-pty'");
        WsClose].
Proof. split; reflexivity. Qed.

(** ** Spawn strategies *)

(** C6, as the code has it.  One connection message for a supported flow
    on a fresh connection, with the [node-pty] import resolved, in the
    websocket module and in the [index.ts] that has the fallback; [o1] is
    how the pty spawn turns out, [o2] how the fallback's import and spawn
    turn out.  The launcher calls [pty.spawn] first.  Only when it throws
    does it spawn a child, through [/usr/bin/script -q /dev/null] and
    with the command line the pty was given (as long as the openclaw
    binary has not appeared or vanished in between); a child so started
    is attached and no error is reported.  When that spawn throws too, or
    its import rejects, the start fails: an error frame is sent and the
    socket is closed.  There is no third spawn: in no run of any
    [ws]-based revision is a child spawned other than through
    [/usr/bin/script]. *)
Theorem launcher_tries_pty_then_script_wrapper env step flowId data type o1 o2 :
  step = Websocket.step env \/ step = IndexScript.step env ->
  flowId = "gpt" \/ flowId = "qwen" ->
  get data "provider" = Some (str flowId) -> get data "type" = Some type ->
  truthy type = false -> imported o1 = Ok ->
  let r := run step fresh [Message (Json data); Resume o1; Resume o2] in
  (exists ptyCall,
     match spawned o1 with
     | Ok =>
         snd r = [PtySpawn 80 30 ptyCall]
         /\ processes (fst r) = [mkProcess PtyShell false]
     | Throws err =>
         match imported o2 with
         | Throws error =>
             snd r = [PtySpawn 80 30 ptyCall;
                      WsSend OPEN (Error ("启动终端失败: " ++ message_text error)%string);
                      WsClose]
             /\ processes (fst r) = []
         | Ok =>
             exists scriptCall,
               file scriptCall = "/usr/bin/script"
               /\ (existsSync o1 = existsSync o2 ->
                   args scriptCall = "-q" :: "/dev/null" :: file ptyCall :: args ptyCall)
               /\ match spawned o2 with
                  | Ok =>
                      snd r = [PtySpawn 80 30 ptyCall; ChildSpawn scriptCall]
                      /\ processes (fst r) = [mkProcess (ScriptChild err) false]
                  | Throws error =>
                      snd r = [PtySpawn 80 30 ptyCall; ChildSpawn scriptCall;
                               WsSend OPEN
                                 (Error ("启动终端失败: " ++ message_text error)%string);
                               WsClose]
                      /\ processes (fst r) = []
                  end
         end
     end)
  /\ forall any c events call,
       In any (revisions env) ->
       In (ChildSpawn call) (snd (run any c events)) -> file call = "/usr/bin/script".
Proof.
  intros Hstep Hflow Hp Ht Hft Himp r. subst r.
  split; [|intros any c events call; apply child_spawns_use_the_wrapper].
  assert (Htp : truthy (str flowId) = true) by (destruct Hflow as [-> | ->]; reflexivity).
  assert (Hin : In step (revisions env))
    by (destruct Hstep as [-> | ->]; [left | right; left]; reflexivity).
  rewrite run_cons, (step_connect env step data (str flowId) type) by assumption.
  cbn [fst snd fresh readyState processes listeners awaiting timers app].
  destruct o1 as [i1 e1 s1], o2 as [i2 e2 s2]. cbn [imported spawned existsSync] in *.
  subst i1.
  destruct Hstep as [-> | ->]; destruct Hflow as [-> | ->];
    destruct s1 as [|err];
    try (destruct i2 as [|error]; [destruct s2 as [|error]|]);
    try (destruct e1; destruct e2);
    cbn;
    match goal with |- context [PtySpawn 80 30 ?call] => exists call end;
    try match goal with |- context [ChildSpawn ?call] => exists call end;
    repeat split; try reflexivity; discriminate.
Qed.

Lemma launcher_witness :
  let data := object [("provider", str "qwen")] in
  let o1 := spawnThrows (Some "forkpty(3) failed.") in
  let r := run (Websocket.step host) fresh [Message (Json data); Resume o1; Resume allGood] in
  (get data "provider" = Some (str "qwen") /\ get data "type" = Some undefined
   /\ imported o1 = Ok)
  /\ (exists ptyCall scriptCall,
        file scriptCall = "/usr/bin/script"
        /\ (existsSync o1 = existsSync allGood ->
            args scriptCall = "-q" :: "/dev/null" :: file ptyCall :: args ptyCall)
        /\ snd r = [PtySpawn 80 30 ptyCall; ChildSpawn scriptCall]
        /\ processes (fst r) = [mkProcess (ScriptChild (Some "forkpty(3) failed.")) false])
  /\ forall any c events call,
       In any (revisions host) ->
       In (ChildSpawn call) (snd (run any c events)) -> file call = "/usr/bin/script".
Proof.
  split; [repeat split|].
  exact (launcher_tries_pty_then_script_wrapper host (Websocket.step host) "qwen"
           (object [("provider", str "qwen")]) undefined
           (spawnThrows (Some "forkpty(3) failed.")) allGood
           (or_introl eq_refl) (or_intror eq_refl) eq_refl eq_refl eq_refl eq_refl).
Defined.

(** What the launcher calls on that host when the pty is refused. *)
Example fallback_on_the_host :
  snd (run (Websocket.step host) fresh
         [Message (connect "qwen"); Resume (spawnThrows (Some "forkpty(3) failed."));
          Resume allGood])
  = [PtySpawn 80 30
       (mkSpawn "/bin/bash"
          ["-lc"; "openclaw models auth login --provider qwen-portal --set-default"]
          "/home/operator"
          (Some "/home/operator/.local/bin:/usr/local/bin:/usr/bin:/bin:/usr/sbin:/sbin")
          (Some "xterm-256color"));
     ChildSpawn
       (mkSpawn "/usr/bin/script"
          ["-q"; "/dev/null"; "/bin/bash"; "-lc";
           "openclaw models auth login --provider qwen-portal --set-default"]
          "/home/operator"
          (Some "/home/operator/.local/bin:/usr/local/bin:/usr/bin:/bin:/usr/sbin:/sbin")
          (Some "xterm-256color"))].
Proof. reflexivity. Qed.

(** C6 as stated fails: when the pty spawn and the wrapper spawn both
    throw, two spawns have been tried, no third follows, and the start is
    reported as failed and the socket closed.  So also in the [index.ts]
    that carries a plain-pipes branch. *)
Lemma no_third_spawn_after_the_wrapper :
  let trace := [Message (connect "qwen");
                Resume (spawnThrows (Some "forkpty(3) failed."));
                Resume (spawnThrows (Some "spawn ENOMEM"))] in
  let cmd := "openclaw models auth login --provider qwen-portal --set-default" in
  let path := "/home/operator/.local/bin:/usr/local/bin:/usr/bin:/bin:/usr/sbin:/sbin" in
  let tried :=
    [PtySpawn 80 30
       (mkSpawn "/bin/bash" ["-lc"; cmd] "/home/operator" (Some path) (Some "xterm-256color"));
     ChildSpawn
       (mkSpawn "/usr/bin/script" ["-q"; "/dev/null"; "/bin/bash"; "-lc"; cmd]
          "/home/operator" (Some path) (Some "xterm-256color"));
     WsSend OPEN (Error "启动终端失败: spawn ENOMEM");
     WsClose] in
  run (Websocket.step host) fresh trace
  = (mkConnection CLOSING [] [] [] [], tried)
  /\ run (IndexScript.step host) fresh trace
     = (mkConnection CLOSING [] [] [] [], tried).
Proof. vm_compute. split; reflexivity. Qed.

(** ** Input frames *)

(** C7, as the code has it.  On a connection with one input listener
    whose [shell] is the pty [p] (what a launch on the pseudo-terminal
    leaves), a sequence of input frames makes exactly one [shell.write]
    per frame, with the frame's payload as it was parsed, in the order
    of the frames, each during the delivery of its own frame; the
    connection is unchanged. *)
Theorem input_frames_reach_the_pty_in_order env c p payloads :
  listeners c = [Some p] ->
  run (Websocket.step env) c (map (fun data => Message (input data)) payloads)
  = (c, map (ShellWrite p) payloads)
  /\ forall data, snd (Websocket.step env (Message (input data)) c) = [ShellWrite p data].
Proof.
  intros Hl. split.
  - induction payloads as [|data rest IH].
    + reflexivity.
    + cbn [map]. rewrite run_cons, websocket_step_input, Hl. cbn [fst snd].
      rewrite IH. reflexivity.
  - intros data. rewrite websocket_step_input, Hl. reflexivity.
Qed.

Lemma input_frames_witness :
  let c := fst (run (Websocket.step host) fresh [Message (connect "qwen"); Resume allGood]) in
  listeners c = [Some 0]
  /\ run (Websocket.step host) c (map (fun data => Message (input data)) [str "1"; str "y"])
     = (c, map (ShellWrite 0) [str "1"; str "y"])
  /\ forall data, snd (Websocket.step host (Message (input data)) c) = [ShellWrite 0 data].
Proof.
  split; [reflexivity|].
  apply (input_frames_reach_the_pty_in_order host
           (fst (run (Websocket.step host) fresh [Message (connect "qwen"); Resume allGood]))
           0 [str "1"; str "y"]).
  reflexivity.
Defined.

(** C7 as stated fails: when [pty.spawn] has thrown and the command runs
    under the script wrapper, a process is attached and its output is
    relayed, and an input frame is written nowhere. *)
Lemma input_is_dropped_on_the_fallback :
  let launch := [Message (connect "gpt"); Resume (spawnThrows (Some "forkpty(3) failed."));
                 Resume allGood] in
  attached (fst (run (Websocket.step host) fresh launch))
  = [mkProcess (ScriptChild (Some "forkpty(3) failed.")) false]
  /\ snd (run (Websocket.step host) (fst (run (Websocket.step host) fresh launch))
            [ChildStdout 0 "Password: "; Message (input (str "hunter2"))])
     = [WsSend OPEN (Output "Password: ")].
Proof. vm_compute. split; reflexivity. Qed.

(** ** Malformed messages *)

(** C8.  A message that [JSON.parse] rejects is logged by the first
    listener and ignored by every input listener: in each [ws]-based
    revision the step makes the single call [console.error], sends no
    frame, does not close the socket and leaves the connection as it was.
    The same holds for a message that parses to [null], on which reading
    a property throws. *)
Theorem malformed_message_is_logged_and_dropped env c :
  (Websocket.step env (Message Malformed) c = (tt, c, [ConsoleError])
   /\ IndexScript.step env (Message Malformed) c = (tt, c, [ConsoleError])
   /\ Index.step env (Message Malformed) c = (tt, c, [ConsoleError]))
  /\ (Websocket.step env (Message (Json null)) c = (tt, c, [ConsoleError])
      /\ IndexScript.step env (Message (Json null)) c = (tt, c, [ConsoleError])
      /\ Index.step env (Message (Json null)) c = (tt, c, [ConsoleError])).
Proof.
  unfold Websocket.step, IndexScript.step, Index.step, bind, get_listeners, onMessage.
  cbn [JSON_parse get]. unfold emit.
  repeat split; (rewrite for_each_idle; [reflexivity|]);
    try reflexivity; intros [shell|]; reflexivity.
Qed.

(** ** The upgrade *)



(** ** The missing-provider reply *)

(** C10.  No run of a [ws]-based revision, from any connection, sends the
    frame [{type:'error', message:'请指定模型提供商'}]; in particular the
    first listener never does, whatever the message: its outer test
    [!type && provider] has already found [provider] truthy when the
    inner [!provider] is evaluated. *)
Theorem missing_provider_reply_is_never_sent env step c events :
  In step (revisions env) ->
  Forall (fun f => f <> Error "请指定模型提供商") (frames (snd (run step c events)))
  /\ forall message,
       Forall (fun f => f <> Error "请指定模型提供商") (frames (snd (onMessage message c))).
Proof.
  intros Hstep.
  assert (lift : forall out, Forall permitted out ->
                 Forall (fun f => f <> Error "请指定模型提供商") (frames out)).
  { intros out Hout. rewrite Forall_forall in *. intros f Hf.
    apply in_frames in Hf. destruct Hf as [rs Hf].
    apply (permitted_not_missing rs). apply Hout. assumption. }
  split.
  - apply lift. apply (run_permitted env); assumption.
  - intros message. apply lift. apply onMessage_permitted.
Qed.

Lemma missing_provider_witness :
  let trace := [Message (Json (object [("provider", str "")])); Message (Json (object []));
                Message (connect "claude"); Resume allGood] in
  In (Websocket.step host) (revisions host)
  /\ Forall (fun f => f <> Error "请指定模型提供商")
       (frames (snd (run (Websocket.step host) fresh trace)))
  /\ forall message,
       Forall (fun f => f <> Error "请指定模型提供商")
         (frames (snd (onMessage message fresh))).
Proof.
  split; [left; reflexivity|].
  apply (missing_provider_reply_is_never_sent host (Websocket.step host) fresh
           [Message (Json (object [("provider", str "")])); Message (Json (object []));
            Message (connect "claude"); Resume allGood]).
  left; reflexivity.
Defined.

(** * Further properties of the bridge *)

(** ** What a closed socket does to the callbacks *)

(** X1.  Once the socket is no longer open, a process callback (output
    on the pty or on either stream of the child, exit, close) makes no
    call at all: nothing is sent, no close timer is set, and the socket
    state, the timers, the listeners and the suspended handlers are as
    before.  This holds in each [ws]-based revision. *)
Theorem closed_socket_silences_process_callbacks env step c e :
  In step (revisions env) ->
  readyState c <> OPEN -> from_process e = true ->
  snd (step e c) = []
  /\ readyState (snd (fst (step e c))) = readyState c
  /\ timers (snd (fst (step e c))) = timers c
  /\ listeners (snd (fst (step e c))) = listeners c
  /\ awaiting (snd (fst (step e c))) = awaiting c.
Proof.
  intros Hstep Hclosed He.
  assert (Hev : process_event e = true) by (destruct e; try discriminate He; reflexivity).
  rewrite (step_process_event env step e Hstep Hev).
  destruct c as [rs ps ls aw tm]. cbn [readyState] in Hclosed.
  destruct rs; [| contradiction Hclosed; reflexivity | |];
    destruct e; try discriminate He;
    unfold callbacks, onData, onExit, onClose; run_handler;
    case_split; repeat split; reflexivity.
Qed.

Lemma closed_socket_witness :
  let c := fst (run (Websocket.step host) fresh
                  [Message (connect "qwen"); Resume allGood; SocketCloses]) in
  let after := Websocket.step host (PtyExit 0 0%Z) c in
  (In (Websocket.step host) (revisions host) /\ readyState c <> OPEN)
  /\ snd after = []
  /\ readyState (snd (fst after)) = readyState c
  /\ timers (snd (fst after)) = timers c
  /\ listeners (snd (fst after)) = listeners c
  /\ awaiting (snd (fst after)) = awaiting c.
Proof.
  split; [split; [left; reflexivity | discriminate]|].
  apply (closed_socket_silences_process_callbacks host (Websocket.step host)
           (fst (run (Websocket.step host) fresh
                   [Message (connect "qwen"); Resume allGood; SocketCloses]))
           (PtyExit 0 0%Z)); [left; reflexivity | discriminate | reflexivity].
Defined.

(** Input listeners leave the connection alone and only ever write. *)
Lemma for_each_stable {A : Type} (P : Effect -> Prop) (f : A -> Handler unit) (l : list A) :
  (forall a c, snd (fst (f a c)) = c /\ Forall P (snd (f a c))) ->
  forall c, snd (fst (for_each l f c)) = c /\ Forall P (snd (for_each l f c)).
Proof.
  intros Hf. induction l as [|a rest IH]; intros c.
  - split; [reflexivity | constructor].
  - cbn [for_each]. unfold bind.
    destruct (Hf a c) as [Hc Hout]. destruct (f a c) as [[u c1] out1].
    cbn [fst snd] in Hc, Hout. subst c1.
    destruct (IH c) as [Hc2 Hout2]. destruct (for_each rest f c) as [[u2 c2] out2].
    cbn [fst snd] in *. split; [assumption | apply Forall_app; split; assumption].
Qed.

Lemma websocket_onInput_stable shell msg c :
  snd (fst (Websocket.onInput shell msg c)) = c
  /\ Forall is_write (snd (Websocket.onInput shell msg c)).
Proof.
  unfold Websocket.onInput. run_handler.
  case_split; split; try reflexivity; repeat constructor.
Qed.

Lemma index_onInput_stable shell msg c :
  snd (fst (Index.onInput shell msg c)) = c /\ Forall is_write (snd (Index.onInput shell msg c)).
Proof.
  unfold Index.onInput. run_handler.
  case_split; split; try reflexivity; repeat constructor.
Qed.

(** The input listeners of a revision, run on one message. *)
Lemma listeners_stable env step message c :
  In step (revisions env) ->
  exists out,
    step (Message message) c
    = (tt, snd (fst (onMessage message c)), snd (onMessage message c) ++ out)
    /\ Forall is_write out.
Proof.
  intros [<- | [<- | [<- | []]]];
    unfold Websocket.step, IndexScript.step, Index.step, bind, get_listeners;
    destruct (onMessage message c) as [[[] c1] out1]; cbn [fst snd].
  - destruct (for_each_stable is_write (fun shell => Websocket.onInput shell message)
                (listeners c) (fun a c0 => websocket_onInput_stable a message c0) c1)
      as [Hc Hout].
    destruct (for_each _ _ c1) as [[[] c2] out2]. cbn [fst snd] in *. subst c2.
    exists out2. split; [reflexivity | assumption].
  - rewrite for_each_idle by (intros; apply indexScript_onInput_idle).
    exists []. split; [reflexivity | constructor].
  - destruct (for_each_stable is_write
                (fun shell => match shell with
                              | Some pty => Index.onInput pty message
                              | None => ret tt
                              end)
                (listeners c)
                (fun a c0 => match a with
                             | Some pty => index_onInput_stable pty message c0
                             | None => conj eq_refl (Forall_nil _)
                             end) c1)
      as [Hc Hout].
    destruct (for_each _ _ c1) as [[[] c2] out2]. cbn [fst snd] in *. subst c2.
    exists out2. split; [reflexivity | assumption].
Qed.

Lemma onMessage_typed data type c :
  get data "type" = Some type -> truthy type = true ->
  onMessage (Json data) c = (tt, c, []).
Proof.
  intros Ht Htt. unfold onMessage, JSON_parse. cbv beta iota. rewrite Ht, Htt.
  destruct data; try discriminate; reflexivity.
Qed.

(** X2.  A message with a truthy [type], an input frame or any other,
    never starts a session, whatever else it carries: in each [ws]-based
    revision the connection is left exactly as it was (nothing awaited,
    spawned or attached, socket untouched) and every call made is a
    [shell.write]. *)
Theorem typed_frames_never_launch env step data type c :
  In step (revisions env) ->
  get data "type" = Some type -> truthy type = true ->
  snd (fst (step (Message (Json data)) c)) = c
  /\ Forall is_write (snd (step (Message (Json data)) c)).
Proof.
  intros Hstep Ht Htt.
  destruct (listeners_stable env step (Json data) c Hstep) as [out [Heq Hout]].
  rewrite Heq, (onMessage_typed data type c Ht Htt). cbn [fst snd app].
  split; [reflexivity | assumption].
Qed.

Lemma typed_frames_witness :
  let data := object [("type", str "input"); ("provider", str "gpt"); ("data", str "y")] in
  let c := fst (run (Websocket.step host) fresh [Message (connect "qwen"); Resume allGood]) in
  (In (Websocket.step host) (revisions host) /\ get data "type" = Some (str "input"))
  /\ snd (fst (Websocket.step host (Message (Json data)) c)) = c
  /\ Forall is_write (snd (Websocket.step host (Message (Json data)) c)).
Proof.
  split; [split; [left; reflexivity | reflexivity]|].
  apply (typed_frames_never_launch host (Websocket.step host)
           (object [("type", str "input"); ("provider", str "gpt"); ("data", str "y")])
           (str "input")
           (fst (run (Websocket.step host) fresh [Message (connect "qwen"); Resume allGood])));
    [left; reflexivity | reflexivity | reflexivity].
Defined.

Ltac after_close :=
  run_handler; case_split;
  (split; [discriminate | repeat constructor; exact (fun F : False => F)]).

Lemma onMessage_after_close message c :
  readyState c <> OPEN ->
  readyState (snd (fst (onMessage message c))) <> OPEN
  /\ Forall (fun e => ~ sent_open e) (snd (onMessage message c)).
Proof.
  intros Hclosed. destruct c as [rs ps ls aw tm]. cbn [readyState] in Hclosed.
  destruct rs; [| contradiction Hclosed; reflexivity | |];
    unfold onMessage; after_close.
Qed.

Lemma callbacks_after_close e c :
  readyState c <> OPEN ->
  readyState (snd (fst (callbacks e c))) <> OPEN
  /\ Forall (fun e => ~ sent_open e) (snd (callbacks e c)).
Proof.
  intros Hclosed. destruct c as [rs ps ls aw tm]. cbn [readyState] in Hclosed.
  destruct rs; [| contradiction Hclosed; reflexivity | |];
    destruct e; unfold callbacks, onData, onExit, onClose; after_close.
Qed.

Lemma resume_after_close env step o c :
  In step (revisions env) ->
  readyState c <> OPEN ->
  readyState (snd (fst (step (Resume o) c))) <> OPEN
  /\ Forall (fun e => ~ sent_open e) (snd (step (Resume o) c)).
Proof.
  intros Hstep Hclosed. destruct c as [rs ps ls aw tm]. cbn [readyState] in Hclosed.
  destruct Hstep as [<- | [<- | [<- | []]]];
    (destruct rs; [| contradiction Hclosed; reflexivity | |]);
    unfold Websocket.step, Websocket.afterImportNodePty, Websocket.afterImportChildProcess,
      IndexScript.step, IndexScript.afterImportNodePty, IndexScript.afterImportChildProcess,
      Index.step, Index.afterImportNodePty, startFailed;
    after_close.
Qed.

Lemma step_after_close env step e c :
  In step (revisions env) ->
  readyState c <> OPEN ->
  readyState (snd (fst (step e c))) <> OPEN
  /\ Forall (fun e => ~ sent_open e) (snd (step e c)).
Proof.
  intros Hstep Hclosed. destruct e.
  - destruct (listeners_stable env step message c Hstep) as [out [Heq Hout]].
    rewrite Heq. cbn [fst snd].
    destruct (onMessage_after_close message c Hclosed) as [Hrs Hsent].
    split; [assumption|]. apply Forall_app. split; [assumption|].
    eapply Forall_impl; [|exact Hout]. intros [] Hw; try contradiction Hw.
    exact (fun F : False => F).
  - apply (resume_after_close env); assumption.
  - rewrite (step_process_event env step (PtyData shell data) Hstep eq_refl).
    apply callbacks_after_close; assumption.
  - rewrite (step_process_event env step (PtyExit shell exitCode) Hstep eq_refl).
    apply callbacks_after_close; assumption.
  - rewrite (step_process_event env step (ChildStdout child data) Hstep eq_refl).
    apply callbacks_after_close; assumption.
  - rewrite (step_process_event env step (ChildStderr child data) Hstep eq_refl).
    apply callbacks_after_close; assumption.
  - rewrite (step_process_event env step (ChildClose child code) Hstep eq_refl).
    apply callbacks_after_close; assumption.
  - rewrite (step_process_event env step TimerFires Hstep eq_refl).
    apply callbacks_after_close; assumption.
  - rewrite (step_process_event env step SocketCloses Hstep eq_refl).
    apply callbacks_after_close; assumption.
  - rewrite (step_process_event env step SocketError Hstep eq_refl).
    apply callbacks_after_close; assumption.
Qed.

Lemma run_after_close env step events :
  In step (revisions env) ->
  forall c,
    readyState c <> OPEN ->
    readyState (fst (run step c events)) <> OPEN
    /\ Forall (fun e => ~ sent_open e) (snd (run step c events)).
Proof.
  intros Hstep. induction events as [|e rest IH]; intros c Hclosed.
  - split; [assumption | constructor].
  - rewrite run_cons. cbn [fst snd].
    destruct (step_after_close env step e c Hstep Hclosed) as [Hrs Hsent].
    destruct (IH _ Hrs) as [Hrs2 Hsent2].
    split; [assumption | apply Forall_app; split; assumption].
Qed.

(** X3.  No handler reopens the socket: in each [ws]-based revision,
    once [ws.readyState] has left [OPEN] it is never [OPEN] again,
    whatever events follow, and from then on no output, success or
    exit-code frame is sent; the only frames a handler still passes to
    [ws.send] are the two replies to a connection message. *)
Theorem a_closed_socket_stays_closed env step c events :
  In step (revisions env) ->
  readyState c <> OPEN ->
  readyState (fst (run step c events)) <> OPEN
  /\ forall f,
       In f (frames (snd (run step c events))) ->
       f = Error "不支持的提供商"
       \/ exists error, f = Error ("启动终端失败: " ++ message_text error)%string.
Proof.
  intros Hstep Hclosed.
  destruct (run_after_close env step events Hstep c Hclosed) as [Hrs Hsent].
  split; [assumption|].
  intros f Hf. apply in_frames in Hf. destruct Hf as [rs Hin].
  pose proof (run_permitted env step c events Hstep) as Hperm.
  rewrite Forall_forall in Hperm, Hsent.
  destruct (permitted_send rs f (Hperm _ Hin)) as [-> | Hreply]; [|assumption].
  exfalso. exact (Hsent _ Hin I).
Qed.

Lemma closed_socket_stays_closed_witness :
  let c := fst (run (Websocket.step host) fresh
                  [Message (connect "qwen"); Resume allGood; SocketCloses]) in
  let events := [PtyData 0 "scan QR"; Message (connect "claude"); Resume allGood;
                 PtyExit 0 0%Z; TimerFires] in
  (In (Websocket.step host) (revisions host) /\ readyState c <> OPEN)
  /\ readyState (fst (run (Websocket.step host) c events)) <> OPEN
  /\ forall f,
       In f (frames (snd (run (Websocket.step host) c events))) ->
       f = Error "不支持的提供商"
       \/ exists error, f = Error ("启动终端失败: " ++ message_text error)%string.
Proof.
  split; [split; [left; reflexivity | discriminate]|].
  apply (a_closed_socket_stays_closed host (Websocket.step host)
           (fst (run (Websocket.step host) fresh
                   [Message (connect "qwen"); Resume allGood; SocketCloses]))
           [PtyData 0 "scan QR"; Message (connect "claude"); Resume allGood;
            PtyExit 0 0%Z; TimerFires]);
    [left; reflexivity | discriminate].
Defined.

(** ** What is spawned *)

Lemma command_tabled provider cmd :
  Websocket.command provider = Some cmd -> tabled cmd.
Proof.
  unfold Websocket.command, strict_eq. intros H.
  destruct provider as [| | | |s| |]; try discriminate H.
  destruct (String.eqb_spec s "gpt") as [->|_].
  - exists "gpt". split; [left; reflexivity | exact H].
  - destruct (String.eqb_spec s "qwen") as [->|_]; [|discriminate H].
    exists "qwen". split; [right; reflexivity | exact H].
Qed.

Lemma onMessage_tabled env message c :
  tabled_awaiting c ->
  tabled_awaiting (snd (fst (onMessage message c)))
  /\ Forall (tabled_spawn env) (snd (onMessage message c)).
Proof.
  intros Hc. unfold onMessage.
  destruct (JSON_parse message) as [data|]; [|split; [assumption | repeat constructor]].
  destruct (get data "provider") as [provider|]; [|split; [assumption | repeat constructor]].
  destruct (get data "type") as [type|]; [|split; [assumption | repeat constructor]].
  destruct (negb (truthy type) && truthy provider);
    [|split; [assumption | repeat constructor]].
  destruct (negb (truthy provider)); [split; [assumption | repeat constructor]|].
  split; [|constructor].
  unfold tabled_awaiting, await. cbn [fst snd awaiting].
  apply Forall_app. split; [assumption | repeat constructor].
Qed.

Lemma callbacks_tabled env e c :
  awaiting (snd (fst (callbacks e c))) = awaiting c
  /\ Forall (tabled_spawn env) (snd (callbacks e c)).
Proof.
  destruct c as [rs ps ls aw tm].
  destruct e; unfold callbacks, onData, onExit, onClose; run_handler;
    case_split; split; try reflexivity; repeat constructor.
Qed.

Lemma websocket_step_tabled env e c :
  tabled_awaiting c ->
  tabled_awaiting (snd (fst (Websocket.step env e c)))
  /\ Forall (tabled_spawn env) (snd (Websocket.step env e c)).
Proof.
  intros Hc.
  assert (Hcb : forall e0, process_event e0 = true ->
            tabled_awaiting (snd (fst (callbacks e0 c)))
            /\ Forall (tabled_spawn env) (snd (callbacks e0 c))).
  { intros e0 _. destruct (callbacks_tabled env e0 c) as [Haw Hout].
    split; [unfold tabled_awaiting; rewrite Haw; exact Hc | exact Hout]. }
  destruct e; try (apply Hcb; reflexivity).
  - destruct (listeners_stable env (Websocket.step env) message c (or_introl eq_refl))
      as [out [Heq Hout]].
    rewrite Heq. cbn [fst snd].
    destruct (onMessage_tabled env message c Hc) as [Haw Hsp].
    split; [assumption|]. apply Forall_app. split; [assumption|].
    eapply Forall_impl; [|exact Hout]. intros [] Hw; try contradiction Hw. exact I.
  - destruct c as [rs ps ls aw tm]. unfold tabled_awaiting in *. cbn [awaiting] in Hc.
    unfold Websocket.step, bind, resume. cbn [awaiting].
    destruct aw as [|[provider|provider cmd err] rest].
    + split; [constructor | constructor].
    + apply Forall_inv_tail in Hc.
      unfold Websocket.afterImportNodePty.
      destruct (imported o) as [|error].
      * destruct (Websocket.command provider) as [cmd|] eqn:Hcmd.
        -- pose proof (command_tabled provider cmd Hcmd) as Htab.
           destruct (spawned o) as [|err]; run_handler; cbn [fst snd].
           ++ split; [assumption|]. repeat constructor. exists cmd. split; [assumption | reflexivity].
           ++ split; [apply Forall_app; split; [assumption | repeat constructor; assumption]|].
              repeat constructor. exists cmd. split; [assumption | reflexivity].
        -- run_handler. split; [assumption | repeat constructor].
      * unfold startFailed. run_handler. split; [assumption | repeat constructor].
    + pose proof (Forall_inv Hc) as Htab. apply Forall_inv_tail in Hc.
      unfold Websocket.afterImportChildProcess.
      destruct (imported o) as [|error].
      * destruct (spawned o) as [|error]; unfold startFailed; run_handler;
          (split; [assumption|]); repeat constructor;
          exists cmd; (split; [assumption | reflexivity]).
      * unfold startFailed. run_handler. split; [assumption | repeat constructor].
Qed.

Lemma websocket_run_tabled env events :
  forall c, tabled_awaiting c -> Forall (tabled_spawn env) (snd (run (Websocket.step env) c events)).
Proof.
  induction events as [|e rest IH]; intros c Hc.
  - constructor.
  - rewrite run_cons. cbn [snd].
    destruct (websocket_step_tabled env e c Hc) as [Haw Hout].
    apply Forall_app. split; [assumption | apply IH; assumption].
Qed.

(** X4.  Nothing of an inbound message reaches a command line.  Whatever
    events arrive on a connection of the websocket module, every process
    it spawns, on the pty or under [/usr/bin/script], is the host's shell
    run with [-lc] on one of the two command lines of the flow table, in
    the home directory and with the defaulted PATH and TERM. *)
Theorem only_tabled_commands_are_spawned env events e :
  In e (snd (run (Websocket.step env) fresh events)) -> tabled_spawn env e.
Proof.
  intros Hin.
  pose proof (websocket_run_tabled env events fresh (Forall_nil _)) as H.
  rewrite Forall_forall in H. apply H. assumption.
Qed.

Lemma tabled_commands_witness :
  let events := [Message (Json (object [("provider", str "qwen"); ("data", str "; rm -rf ~")]));
                 Resume (spawnThrows (Some "forkpty(3) failed.")); Resume allGood] in
  let call :=
    mkSpawn "/usr/bin/script"
      ["-q"; "/dev/null"; "/bin/bash"; "-lc";
       "openclaw models auth login --provider qwen-portal --set-default"]
      "/home/operator"
      (Some "/home/operator/.local/bin:/usr/local/bin:/usr/bin:/bin:/usr/sbin:/sbin")
      (Some "xterm-256color") in
  In (ChildSpawn call) (snd (run (Websocket.step host) fresh events))
  /\ tabled_spawn host (ChildSpawn call).
Proof.
  assert (Hin : In (ChildSpawn
                      (mkSpawn "/usr/bin/script"
                         ["-q"; "/dev/null"; "/bin/bash"; "-lc";
                          "openclaw models auth login --provider qwen-portal --set-default"]
                         "/home/operator"
                         (Some "/home/operator/.local/bin:/usr/local/bin:/usr/bin:/bin:/usr/sbin:/sbin")
                         (Some "xterm-256color")))
                  (snd (run (Websocket.step host) fresh
                          [Message (Json (object [("provider", str "qwen");
                                                  ("data", str "; rm -rf ~")]));
                           Resume (spawnThrows (Some "forkpty(3) failed.")); Resume allGood])))
    by (right; left; reflexivity).
  split; [exact Hin|].
  exact (only_tabled_commands_are_spawned host _ _ Hin).
Defined.

(** ** The fallback child's two streams *)

(** X5.  While the socket is open, what a fallback child writes on
    stdout and on stderr is relayed alike: one output frame per chunk,
    in the order the chunks arrive, whichever stream each came from, and
    nothing else happens on the connection. *)
Theorem child_streams_are_relayed_in_arrival_order env step p err chunks :
  In step (revisions env) ->
  forall c,
    readyState c = OPEN ->
    nth_error (processes c) p = Some (mkProcess (ScriptChild err) false) ->
    run step c (child_output p chunks)
    = (c, map (fun chunk => WsSend OPEN (Output (snd chunk))) chunks).
Proof.
  intros Hstep. induction chunks as [|[stderr data] rest IH]; intros c Hopen Hp.
  - reflexivity.
  - unfold child_output in *. cbn [map fst snd]. rewrite run_cons.
    assert (Hone : step (if stderr then ChildStderr p data else ChildStdout p data) c
                   = (tt, c, [WsSend OPEN (Output data)])).
    { destruct c as [rs ps ls aw tm]. cbn [readyState processes] in Hopen, Hp. subst rs.
      destruct stderr;
        [rewrite (step_process_event env step (ChildStderr p data) Hstep eq_refl)
        |rewrite (step_process_event env step (ChildStdout p data) Hstep eq_refl)];
        unfold callbacks, bind, running; cbn [processes]; rewrite Hp; reflexivity. }
    rewrite Hone. cbn [fst snd]. rewrite (IH c Hopen Hp). reflexivity.
Qed.

Lemma child_streams_witness :
  let c := fst (run (Websocket.step host) fresh
                  [Message (connect "gpt"); Resume (spawnThrows None); Resume allGood]) in
  let chunks := [(false, "Open this URL: "); (true, "warning: no TTY"); (false, "https://x")] in
  (readyState c = OPEN /\ nth_error (processes c) 0 = Some (mkProcess (ScriptChild None) false))
  /\ run (Websocket.step host) c (child_output 0 chunks)
     = (c, map (fun chunk => WsSend OPEN (Output (snd chunk))) chunks).
Proof.
  split; [split; reflexivity|].
  apply (child_streams_are_relayed_in_arrival_order host (Websocket.step host) 0 None
           [(false, "Open this URL: "); (true, "warning: no TTY"); (false, "https://x")]
           (or_introl eq_refl)); reflexivity.
Defined.

(** ** The child's environment *)



(** ** A sequence of upgrade requests *)


(** ** The pseudo-terminal-only [index.ts] *)

(** X8.  In the [index.ts] without a fallback a refused pty ends the
    start: for a supported flow whose [pty.spawn] throws, the one spawn
    is followed by the error frame carrying the thrown message and by
    [ws.close()]; no process is attached, no input listener is
    registered, and nothing is left waiting. *)
Theorem index_refused_pty_ends_the_start env flowId data type error :
  flowId = "gpt" \/ flowId = "qwen" ->
  get data "provider" = Some (str flowId) -> get data "type" = Some type ->
  truthy type = false ->
  exists cmd,
    Index.command (str flowId) = Some cmd
    /\ run (Index.step env) fresh [Message (Json data); Resume (spawnThrows error)]
       = (mkConnection CLOSING [] [] [] [],
          [PtySpawn 80 30
             (mkSpawn "sh" ["-c"; cmd] (or_default (HOME env) (process_cwd env))
                (PATH env) (TERM env));
           WsSend OPEN (Error ("启动终端失败: " ++ message_text error)%string);
           WsClose]).
Proof.
  intros Hflow Hp Ht Hft.
  assert (Htp : truthy (str flowId) = true) by (destruct Hflow as [-> | ->]; reflexivity).
  rewrite run_cons.
  rewrite (step_connect env (Index.step env) data (str flowId) type)
    by (assumption || (right; right; left; reflexivity)).
  destruct Hflow as [-> | ->]; eexists; (split; [reflexivity|]); reflexivity.
Qed.

Lemma index_refused_pty_witness :
  let data := object [("provider", str "gpt")] in
  (get data "provider" = Some (str "gpt") /\ get data "type" = Some undefined)
  /\ exists cmd,
       Index.command (str "gpt") = Some cmd
       /\ run (Index.step host) fresh
            [Message (Json data); Resume (spawnThrows (Some "forkpty(3) failed."))]
          = (mkConnection CLOSING [] [] [] [],
             [PtySpawn 80 30
                (mkSpawn "sh" ["-c"; cmd] (or_default (HOME host) (process_cwd host))
                   (PATH host) (TERM host));
              WsSend OPEN (Error ("启动终端失败: "
                                    ++ message_text (Some "forkpty(3) failed."))%string);
              WsClose]).
Proof.
  split; [split; reflexivity|].
  exact (index_refused_pty_ends_the_start host "gpt" (object [("provider", str "gpt")])
           undefined (Some "forkpty(3) failed.") (or_introl eq_refl) eq_refl eq_refl eq_refl).
Defined.

(** ** Input after several launches *)

Lemma websocket_launch env flowId c :
  flowId = "gpt" \/ flowId = "qwen" -> awaiting c = [] ->
  fst (run (Websocket.step env) c [Message (connect flowId); Resume allGood])
  = mkConnection (readyState c) (processes c ++ [mkProcess PtyShell false])
      (listeners c ++ [Some (length (processes c))]) [] (timers c).
Proof.
  intros Hflow Haw.
  assert (Htp : truthy (str flowId) = true) by (destruct Hflow as [-> | ->]; reflexivity).
  rewrite run_cons.
  rewrite (step_connect env (Websocket.step env) (object [("provider", str flowId)])
             (str flowId) undefined)
    by (assumption || reflexivity || (left; reflexivity)).
  cbn [fst snd]. rewrite Haw. destruct c as [rs ps ls aw tm].
  destruct Hflow as [-> | ->]; reflexivity.
Qed.

Lemma websocket_launches env flows :
  Forall (fun flowId => flowId = "gpt" \/ flowId = "qwen") flows ->
  forall c,
    awaiting c = [] ->
    fst (run (Websocket.step env) c (launches flows))
    = mkConnection (readyState c)
        (processes c ++ repeat (mkProcess PtyShell false) (length flows))
        (listeners c ++ map Some (seq (length (processes c)) (length flows))) [] (timers c).
Proof.
  induction 1 as [|flowId rest Hflow Hrest IH]; intros c Haw.
  - destruct c as [rs ps ls aw tm]. cbn in *. subst aw. rewrite !app_nil_r. reflexivity.
  - unfold launches in *. cbn [flat_map].
    rewrite (run_app (Websocket.step env) [Message (connect flowId); Resume allGood]).
    cbn [fst]. rewrite (websocket_launch env flowId c Hflow Haw).
    rewrite IH by reflexivity.
    cbn [readyState processes listeners timers length repeat map seq].
    rewrite length_app. cbn [length]. rewrite Nat.add_1_r, <- !app_assoc. reflexivity.
Qed.

Lemma forwarded_to_all data shells :
  forwarded data (map Some shells) = map (fun p => ShellWrite p data) shells.
Proof. induction shells as [|p rest IH]; [reflexivity | cbn; rewrite <- IH; reflexivity]. Qed.

(** X9.  Launches on one connection pile up: after any number of
    connection messages for supported flows, each resumed with its pty
    spawned, the connection holds one pty and one input listener per
    message, and a single input frame is then written once to every one
    of these ptys, in the order they were launched. *)
Theorem one_input_frame_is_written_to_every_pty env flows data :
  Forall (fun flowId => flowId = "gpt" \/ flowId = "qwen") flows ->
  let c := fst (run (Websocket.step env) fresh (launches flows)) in
  length (attached c) = length flows
  /\ Websocket.step env (Message (input data)) c
     = (tt, c, map (fun p => ShellWrite p data) (seq 0 (length flows))).
Proof.
  intros Hflows c. subst c.
  rewrite (websocket_launches env flows Hflows fresh eq_refl).
  cbn [fresh readyState processes listeners timers app length]. split.
  - unfold attached. cbn [processes].
    induction (length flows) as [|n IH]; [reflexivity | cbn; rewrite IH; reflexivity].
  - rewrite websocket_step_input. cbn [listeners]. rewrite forwarded_to_all. reflexivity.
Qed.

Lemma every_pty_witness :
  let flows := ["gpt"; "qwen"; "gpt"] in
  let c := fst (run (Websocket.step host) fresh (launches flows)) in
  Forall (fun flowId => flowId = "gpt" \/ flowId = "qwen") flows
  /\ length (attached c) = 3
  /\ Websocket.step host (Message (input (str "y"))) c
     = (tt, c, [ShellWrite 0 (str "y"); ShellWrite 1 (str "y"); ShellWrite 2 (str "y")]).
Proof.
  assert (H : Forall (fun flowId => flowId = "gpt" \/ flowId = "qwen") ["gpt"; "qwen"; "gpt"])
    by (repeat constructor; auto).
  split; [exact H|].
  exact (one_input_frame_is_written_to_every_pty host ["gpt"; "qwen"; "gpt"] (str "y") H).
Defined.

(** * Further properties of the utilities *)

(** ** Removing escape sequences *)

Section StripAnsi.

Import Utils.

Lemma between_spec lo hi c : between lo hi c = true <-> (lo <= c <= hi)%N.
Proof. unfold between. rewrite andb_true_iff, !N.leb_le. tauto. Qed.

Lemma span_all (p q : N -> bool) xs rest :
  Forall (fun c => p c = true) xs ->
  match rest with c :: _ => p c = false | [] => True end ->
  span p (xs ++ rest) = length xs.
Proof.
  intros Hxs Hrest. induction Hxs as [|x xs Hx _ IH].
  - destruct rest as [|c rest]; [reflexivity | cbn; rewrite Hrest; reflexivity].
  - cbn. rewrite Hx, IH. reflexivity.
Qed.

Lemma span_spec p s :
  Forall (fun c => p c = true) (firstn (span p s) s)
  /\ match skipn (span p s) s with c :: _ => p c = false | [] => True end.
Proof.
  induction s as [|c rest [IH1 IH2]]; [split; [constructor | exact I]|].
  cbn [span]. destruct (p c) eqn:Hc.
  - cbn [firstn skipn]. split; [constructor; assumption | assumption].
  - cbn. split; [constructor | assumption].
Qed.

Lemma span_le p s : span p s <= length s.
Proof. induction s as [|c rest IH]; cbn; [lia | destruct (p c); cbn; lia]. Qed.

Lemma nth_error_cut {A : Type} (s : list A) n f :
  nth_error s n = Some f -> s = firstn n s ++ f :: skipn (S n) s.
Proof.
  revert s. induction n as [|n IH]; intros [|x s] H; try discriminate.
  - injection H as ->. reflexivity.
  - cbn [firstn skipn app]. f_equal. apply IH. assumption.
Qed.

Lemma firstn_sum {A : Type} (s : list A) p i :
  firstn (p + i) s = firstn p s ++ firstn i (skipn p s).
Proof.
  revert s. induction p as [|p IH]; intros [|x s]; cbn; try reflexivity.
  - rewrite firstn_nil. reflexivity.
  - f_equal. apply IH.
Qed.

(** The scanner recognises each string of the pattern's language at the
    head of a text, whatever follows. *)
Lemma escapeLength_complete q rest : ansi q -> escapeLength (q ++ rest) = Some (length q).
Proof.
  intros [c Hc | params inters f Hp Hi Hf].
  - cbn. rewrite Hc. reflexivity.
  - cbn [app escapeLength]. unfold ESC. rewrite N.eqb_refl.
    change (escFinal 91) with false. cbn [N.eqb Pos.eqb].
    rewrite <- !app_assoc. cbn [app].
    assert (Hparams : span csiParam (params ++ inters ++ f :: rest) = length params).
    { apply (span_all csiParam csiParam); [assumption|].
      destruct Hi as [|i inters Hi _].
      - cbn. apply between_spec in Hf. unfold csiParam, between.
        apply andb_false_iff. right. apply N.leb_gt. lia.
      - cbn. apply between_spec in Hi. unfold csiParam, between.
        apply andb_false_iff. left. apply N.leb_gt. lia. }
    rewrite Hparams.
    rewrite skipn_app, skipn_all, Nat.sub_diag. cbn [app skipn].
    assert (Hinters : span csiInter (inters ++ f :: rest) = length inters).
    { apply (span_all csiInter csiInter); [assumption|].
      cbn. apply between_spec in Hf. unfold csiInter, between.
      apply andb_false_iff. right. apply N.leb_gt. lia. }
    rewrite Hinters.
    rewrite app_assoc, nth_error_app2 by (rewrite length_app; lia).
    rewrite length_app, Nat.sub_diag. cbn [nth_error]. rewrite Hf.
    cbn [length]. rewrite !length_app. cbn [length]. f_equal. lia.
Qed.

(** And it recognises nothing else. *)
Lemma escapeLength_sound s n :
  escapeLength s = Some n -> exists q rest, s = q ++ rest /\ ansi q /\ length q = n.
Proof.
  destruct s as [|e [|c rest]]; try discriminate. cbn [escapeLength].
  destruct (N.eqb_spec e ESC) as [->|]; [|discriminate].
  destruct (escFinal c) eqn:Hc.
  - intros [= <-]. exists [ESC; c], rest. repeat split. constructor. assumption.
  - destruct (N.eqb_spec c 91) as [->|]; [|discriminate].
    set (params := span csiParam rest).
    set (inters := span csiInter (skipn params rest)).
    destruct (nth_error rest (params + inters)) as [f|] eqn:Hnth; [|discriminate].
    destruct (csiFinal f) eqn:Hf; [|discriminate].
    intros [= <-].
    destruct (span_spec csiParam rest) as [Hp _].
    destruct (span_spec csiInter (skipn params rest)) as [Hi _].
    fold params in Hp. fold inters in Hi.
    pose proof (span_le csiParam rest) as Lp. fold params in Lp.
    pose proof (span_le csiInter (skipn params rest)) as Li. fold inters in Li.
    rewrite length_skipn in Li.
    exists (ESC :: 91%N :: firstn params rest ++ firstn inters (skipn params rest) ++ [f]),
      (skipn (S (params + inters)) rest).
    split; [|split].
    + cbn [app]. do 2 f_equal. rewrite <- !app_assoc. cbn [app].
      rewrite app_assoc, <- firstn_sum. apply nth_error_cut. assumption.
    + constructor; assumption.
    + cbn [length]. rewrite !length_app, !length_firstn, length_skipn. cbn [length]. lia.
Qed.


Lemma escapeLength_plain c rest : c <> ESC -> escapeLength (c :: rest) = None.
Proof.
  intros Hc. destruct rest as [|x rest]; [reflexivity|]. cbn [escapeLength].
  destruct (N.eqb_spec c ESC); [contradiction | reflexivity].
Qed.

Lemma strip_drop xs rest : strip (length xs) (xs ++ rest) = strip 0 rest.
Proof. induction xs as [|x xs IH]; [reflexivity | exact IH]. Qed.

Lemma strip_plain pre s : ~ In ESC pre -> strip 0 (pre ++ s) = pre ++ strip 0 s.
Proof.
  induction pre as [|c pre IH]; intros Hpre; [reflexivity|].
  cbn [app strip]. rewrite escapeLength_plain by (intros ->; apply Hpre; left; reflexivity).
  rewrite IH by (intros H; apply Hpre; right; assumption). reflexivity.
Qed.

Lemma strip_match q rest : ansi q -> strip 0 (q ++ rest) = strip 0 rest.
Proof.
  intros Hq. pose proof (escapeLength_complete q rest Hq) as Hlen.
  destruct q as [|e q]; [inversion Hq|].
  cbn [app strip] in *. rewrite Hlen. cbn [length Nat.pred]. apply strip_drop.
Qed.

Lemma stripAnsi_segment pre q rest :
  ~ In ESC pre -> ansi q -> stripAnsi (pre ++ q ++ rest) = pre ++ stripAnsi rest.
Proof.
  intros Hpre Hq. unfold stripAnsi. rewrite strip_plain by assumption.
  rewrite strip_match by assumption. reflexivity.
Qed.

Lemma stripAnsi_plain s : ~ In ESC s -> stripAnsi s = s.
Proof.
  intros Hs. unfold stripAnsi. rewrite <- (app_nil_r s) at 1.
  rewrite strip_plain by assumption. cbn. apply app_nil_r.
Qed.

Lemma strip_length d s : length (strip d s) <= length s - d.
Proof.
  revert d. induction s as [|c rest IH]; intros d; [cbn; lia|].
  cbn [strip]. destruct d as [|d].
  - destruct (escapeLength (c :: rest)) as [n|].
    + specialize (IH (pred n)). cbn [length]. lia.
    + specialize (IH 0). cbn [length]. lia.
  - specialize (IH d). cbn [length]. lia.
Qed.

Lemma ansi_length q : ansi q -> 2 <= length q.
Proof. intros [c Hc | params inters f Hp Hi Hf]; cbn; lia. Qed.

Lemma strip_shrinks pre q rest :
  ansi q -> length (strip 0 (pre ++ q ++ rest)) < length (pre ++ q ++ rest).
Proof.
  intros Hq. induction pre as [|c pre IH].
  - cbn [app]. rewrite strip_match by assumption.
    pose proof (strip_length 0 rest). pose proof (ansi_length q Hq).
    rewrite length_app. lia.
  - cbn [app strip]. destruct (escapeLength (c :: pre ++ q ++ rest)) as [n|].
    + pose proof (strip_length (pred n) (pre ++ q ++ rest)). cbn [length]. lia.
    + cbn [length]. lia.
Qed.

End StripAnsi.

(** X10.  [stripAnsi] on terminal output made of plain text and escape
    sequences: when no piece of text holds an ESC and every sequence is
    one the pattern describes (ESC and one unit from [@] to [_] other
    than the opening bracket, or a CSI sequence: ESC, the bracket,
    parameter units, intermediate units, a final unit), the result is
    the text alone, in order, with every sequence gone. *)
Theorem stripAnsi_keeps_the_text_between_sequences
        (segments : list (Utils.text * Utils.text)) (tail : Utils.text) :
  Forall (fun seg => ~ In Utils.ESC (fst seg) /\ ansi (snd seg)) segments ->
  ~ In Utils.ESC tail ->
  Utils.stripAnsi (flat_map (fun seg => fst seg ++ snd seg) segments ++ tail)
  = flat_map fst segments ++ tail.
Proof.
  intros Hsegs Htail. induction Hsegs as [|[plain q] rest [Hplain Hq] _ IH].
  - apply stripAnsi_plain. assumption.
  - cbn [flat_map fst snd] in *. rewrite <- !app_assoc.
    rewrite stripAnsi_segment by assumption. rewrite IH. reflexivity.
Qed.

Lemma stripAnsi_text_witness :
  let red := [27; 91; 51; 49; 109]%N in
  let reset := [27; 91; 48; 109]%N in
  let segments := [(Utils.units "status: ", red); (Utils.units "ok", reset)] in
  Forall (fun seg => ~ In Utils.ESC (fst seg) /\ ansi (snd seg)) segments
  /\ Utils.stripAnsi (flat_map (fun seg => fst seg ++ snd seg) segments ++ [10%N])
     = Utils.units "status: ok" ++ [10%N].
Proof.
  assert (Hplain : forall s : Utils.text,
             forallb (fun c => negb (c =? Utils.ESC)%N) s = true -> ~ In Utils.ESC s).
  { intros s Hs Hin. rewrite forallb_forall in Hs. specialize (Hs _ Hin).
    rewrite N.eqb_refl in Hs. discriminate. }
  assert (Hsegs : Forall (fun seg => ~ In Utils.ESC (fst seg) /\ ansi (snd seg))
                    [(Utils.units "status: ", [27; 91; 51; 49; 109]%N);
                     (Utils.units "ok", [27; 91; 48; 109]%N)]).
  { repeat constructor.
    - apply Hplain. reflexivity.
    - apply (ansi_csi [51; 49]%N [] 109%N); repeat constructor.
    - apply Hplain. reflexivity.
    - apply (ansi_csi [48]%N [] 109%N); repeat constructor. }
  split; [exact Hsegs|].
  exact (stripAnsi_keeps_the_text_between_sequences _ [10%N] Hsegs
           (Hplain [10%N] eq_refl)).
Defined.

(** X11.  [stripAnsi] returns a text unchanged exactly when no escape
    sequence of the pattern occurs anywhere in it; otherwise the result
    is strictly shorter.  It is never longer than its argument. *)
Theorem stripAnsi_changes_exactly_the_texts_with_a_sequence (s : Utils.text) :
  (Utils.stripAnsi s = s <-> ~ exists pre q rest, s = pre ++ q ++ rest /\ ansi q)
  /\ length (Utils.stripAnsi s) <= length s.
Proof.
  split; [split|].
  - intros Hsame [pre [q [rest [-> Hq]]]].
    pose proof (strip_shrinks pre q rest Hq) as Hlt.
    unfold Utils.stripAnsi in Hsame. rewrite Hsame in Hlt. lia.
  - unfold Utils.stripAnsi. induction s as [|c rest IH]; intros Hnone; [reflexivity|].
    cbn [Utils.strip]. destruct (Utils.escapeLength (c :: rest)) as [n|] eqn:Hlen.
    + exfalso. apply escapeLength_sound in Hlen. destruct Hlen as [q [rest' [E [Hq _]]]].
      apply Hnone. exists [], q, rest'. split; assumption.
    + f_equal. apply IH. intros [pre [q [rest' [-> Hq]]]].
      apply Hnone. exists (c :: pre), q, rest'. split; [reflexivity | assumption].
  - pose proof (strip_length 0 s). unfold Utils.stripAnsi. lia.
Qed.

(** X12.  [stripAnsi] makes one pass: what removing a sequence brings
    together is not looked at again.  An ESC right before a sequence,
    with a unit from [@] to [_] (the bracket excepted) right behind it,
    leaves the ESC and that unit, which is again a sequence of the
    pattern; a second call removes it, so the function is not
    idempotent on such a text. *)
Theorem stripAnsi_is_a_single_pass (q : Utils.text) (c : N) (rest : Utils.text) :
  ansi q -> Utils.escFinal c = true ->
  let s := Utils.ESC :: q ++ c :: rest in
  Utils.stripAnsi s = Utils.ESC :: c :: Utils.stripAnsi rest
  /\ ansi [Utils.ESC; c]
  /\ Utils.stripAnsi (Utils.stripAnsi s) = Utils.stripAnsi (Utils.stripAnsi rest)
  /\ Utils.stripAnsi (Utils.stripAnsi s) <> Utils.stripAnsi s.
Proof.
  intros Hq Hc s. subst s.
  assert (Hfirst : Utils.stripAnsi (Utils.ESC :: q ++ c :: rest)
                   = Utils.ESC :: c :: Utils.stripAnsi rest).
  { unfold Utils.stripAnsi. cbn [Utils.strip].
    assert (Hno : Utils.escapeLength (Utils.ESC :: q ++ c :: rest) = None).
    { destruct Hq as [x Hx | params inters f Hp Hi Hf]; reflexivity. }
    rewrite Hno. rewrite strip_match by assumption.
    cbn [Utils.strip]. rewrite escapeLength_plain; [reflexivity|].
    intros ->. discriminate Hc. }
  assert (Hseq : ansi [Utils.ESC; c]) by (constructor; assumption).
  assert (Hsecond : Utils.stripAnsi (Utils.ESC :: c :: Utils.stripAnsi rest)
                    = Utils.stripAnsi (Utils.stripAnsi rest)).
  { apply (stripAnsi_segment [] [Utils.ESC; c]); [intros [] | assumption]. }
  repeat split; try assumption.
  - rewrite Hfirst. assumption.
  - rewrite Hfirst, Hsecond. intros E.
    pose proof (strip_length 0 (Utils.stripAnsi rest)) as Hle.
    unfold Utils.stripAnsi in E at 1. rewrite E in Hle. cbn [length] in Hle. lia.
Qed.

Lemma stripAnsi_single_pass_witness :
  let s := (27 :: [27; 91; 48; 109] ++ 77 :: Utils.units "rest")%N in
  ansi [27; 91; 48; 109]%N /\ Utils.escFinal 77 = true
  /\ Utils.stripAnsi s = (27 :: 77 :: Utils.units "rest")%N
  /\ Utils.stripAnsi (Utils.stripAnsi s) = Utils.units "rest".
Proof.
  assert (Hq : ansi [27; 91; 48; 109]%N)
    by (apply (ansi_csi [48]%N [] 109%N); repeat constructor).
  split; [exact Hq|]. split; [reflexivity|].
  pose proof (stripAnsi_is_a_single_pass [27; 91; 48; 109]%N 77%N (Utils.units "rest")
                Hq eq_refl) as [H1 [_ [H2 _]]].
  split; [exact H1 | exact H2].
Defined.

(** ** Lines and trimming *)

Section Lines.

Import Utils.

Lemma split_nonempty sep s : split sep s <> [].
Proof.
  induction s as [|c rest IH]; [discriminate|]. cbn [split].
  destruct (c =? sep)%N; [discriminate|]. destruct (split sep rest); discriminate.
Qed.

(** Splitting distributes over a separator. *)
Lemma split_app sep a b : split sep (a ++ sep :: b) = split sep a ++ split sep b.
Proof.
  induction a as [|c a IH].
  - cbn [app split]. rewrite N.eqb_refl. reflexivity.
  - cbn [app split]. rewrite IH. destruct (c =? sep)%N; [reflexivity|].
    pose proof (split_nonempty sep a) as Hne.
    destruct (split sep a) as [|part parts]; [contradiction | reflexivity].
Qed.

Lemma split_one sep s : ~ In sep s -> split sep s = [s].
Proof.
  induction s as [|c rest IH]; intros Hs; [reflexivity|]. cbn [split].
  destruct (N.eqb_spec c sep) as [->|_]; [exfalso; apply Hs; left; reflexivity|].
  rewrite IH by (intros H; apply Hs; right; assumption). reflexivity.
Qed.

(** No part holds the separator, and the units of the parts are the
    units of the text other than the separator. *)
Lemma split_parts sep (P : N -> Prop) s :
  Forall (fun part => ~ In sep part) (split sep s)
  /\ (Forall (Forall P) (split sep s) <-> Forall (fun c => c = sep \/ P c) s).
Proof.
  induction s as [|c rest [IH1 IH2]].
  - cbn. split; [repeat constructor; intros [] | split; repeat constructor].
  - cbn [split]. destruct (N.eqb_spec c sep) as [->|Hne].
    + split; [constructor; [intros [] | assumption]|].
      split.
      * intros H. inversion H; subst. constructor; [left; reflexivity | apply IH2; assumption].
      * intros H. inversion H; subst. constructor; [constructor | apply IH2; assumption].
    + pose proof (split_nonempty sep rest) as Hnil.
      destruct (split sep rest) as [|part parts]; [contradiction|].
      inversion IH1 as [|? ? Hpart Hparts]; subst.
      split.
      * constructor; [|assumption]. intros [-> | Hin]; [apply Hne; reflexivity | auto].
      * split.
        -- intros H. inversion H as [|? ? Hhead Htail]; subst.
           inversion Hhead; subst.
           constructor; [right; assumption|]. apply IH2. constructor; assumption.
        -- intros H. inversion H as [|? ? Hc Hrest]; subst.
           destruct Hc as [-> | Hc]; [contradiction Hne; reflexivity|].
           apply IH2 in Hrest. inversion Hrest; subst.
           constructor; [constructor; assumption | assumption].
Qed.

Lemma trimStart_nil s : trimStart s = [] <-> Forall (fun c => whiteSpace c = true) s.
Proof.
  induction s as [|c rest IH]; [split; constructor|]. cbn [trimStart].
  destruct (whiteSpace c) eqn:Hc.
  - rewrite IH. split; [constructor; assumption | intros H; inversion H; assumption].
  - split; [discriminate | intros H; inversion H; congruence].
Qed.

Lemma trimStart_last a x : whiteSpace x = false -> trimStart (a ++ [x]) = trimStart a ++ [x].
Proof.
  intros Hx. induction a as [|c a IH]; cbn [app trimStart].
  - rewrite Hx. reflexivity.
  - destruct (whiteSpace c); [assumption | reflexivity].
Qed.

Lemma trimStart_head s :
  match trimStart s with c :: _ => whiteSpace c = false | [] => True end.
Proof.
  induction s as [|c rest IH]; [exact I|]. cbn [trimStart].
  destruct (whiteSpace c) eqn:Hc; assumption.
Qed.

Lemma trimStart_fixed c rest : whiteSpace c = false -> trimStart (c :: rest) = c :: rest.
Proof. intros Hc. cbn [trimStart]. rewrite Hc. reflexivity. Qed.

Lemma trimStart_idem s : trimStart (trimStart s) = trimStart s.
Proof.
  pose proof (trimStart_head s) as H. destruct (trimStart s) as [|c rest]; [reflexivity|].
  apply trimStart_fixed. assumption.
Qed.

Lemma trimStart_incl s c : In c (trimStart s) -> In c s.
Proof.
  induction s as [|x rest IH]; [intros []|]. cbn [trimStart].
  destruct (whiteSpace x); [right; auto | auto].
Qed.

(** The shape of a trimmed text: empty, or a unit that is not white
    space followed by what [trimEnd] leaves of the rest. *)
Lemma trim_shape s :
  match trimStart s with
  | [] => trim s = []
  | c :: rest => trim s = c :: rev (trimStart (rev rest))
  end.
Proof.
  unfold trim, trimEnd. pose proof (trimStart_head s) as H.
  destruct (trimStart s) as [|c rest]; [reflexivity|].
  cbn [rev]. rewrite trimStart_last by assumption.
  rewrite rev_app_distr. reflexivity.
Qed.

Lemma trim_nil s : trim s = [] <-> Forall (fun c => whiteSpace c = true) s.
Proof.
  rewrite <- trimStart_nil. pose proof (trim_shape s) as H.
  destruct (trimStart s) as [|c rest]; [tauto|]. rewrite H. split; discriminate.
Qed.

Lemma trim_idem s : trim (trim s) = trim s.
Proof.
  pose proof (trim_shape s) as H. pose proof (trimStart_head s) as Hhead.
  destruct (trimStart s) as [|c rest]; [rewrite H; reflexivity|].
  rewrite H. pose proof (trim_shape (c :: rev (trimStart (rev rest)))) as H2.
  rewrite trimStart_fixed in H2 by assumption.
  rewrite H2, rev_involutive, trimStart_idem. reflexivity.
Qed.

Lemma trim_incl s c : In c (trim s) -> In c s.
Proof.
  unfold trim, trimEnd. intros H. apply in_rev in H. apply trimStart_incl in H.
  apply in_rev in H. apply trimStart_incl in H. assumption.
Qed.

(** The ends of a trimmed text are not white space. *)
Lemma trim_ends s :
  match trim s with c :: _ => whiteSpace c = false | [] => True end
  /\ match rev (trim s) with c :: _ => whiteSpace c = false | [] => True end.
Proof.
  split.
  - pose proof (trim_shape s) as H. pose proof (trimStart_head s) as Hhead.
    destruct (trimStart s) as [|c rest]; rewrite H; [exact I | assumption].
  - unfold trim, trimEnd. rewrite rev_involutive. apply trimStart_head.
Qed.

Lemma last_nonEmpty (lines : list text) :
  Forall (fun l => nonEmpty l = true) lines -> last lines [] = [] -> lines = [].
Proof.
  intros Hall Hlast. destruct lines as [|l rest]; [reflexivity|].
  assert (Hin : In (last (l :: rest) []) (l :: rest)).
  { clear. revert l. induction rest as [|x rest IH]; intros l; [left; reflexivity|].
    right. apply IH. }
  rewrite Forall_forall in Hall. apply Hall in Hin. rewrite Hlast in Hin. discriminate.
Qed.

Lemma last_in (lines : list text) l : lines <> [] -> last lines l = last lines [].
Proof.
  induction lines as [|x rest IH]; [contradiction|]. intros _.
  destruct rest as [|y rest]; [reflexivity|]. apply IH. discriminate.
Qed.

(** The entries [filter(Boolean)] keeps of the trimmed parts. *)
Lemma kept_parts sep s :
  Forall (fun e => e <> [] /\ trim e = e /\ ~ In sep e)
    (filter nonEmpty (map trim (split sep s))).
Proof.
  rewrite Forall_forall. intros e He. apply filter_In in He. destruct He as [He Hne].
  apply in_map_iff in He. destruct He as [part [<- Hpart]].
  split; [intros E; rewrite E in Hne; discriminate|].
  split; [apply trim_idem|].
  intros Hin. apply trim_incl in Hin.
  pose proof (proj1 (split_parts sep (fun _ => True) s)) as Hparts.
  rewrite Forall_forall in Hparts. exact (Hparts part Hpart Hin).
Qed.

Lemma kept_nil sep s :
  filter nonEmpty (map trim (split sep s)) = []
  <-> Forall (fun c => c = sep \/ whiteSpace c = true) s.
Proof.
  rewrite <- (proj2 (split_parts sep (fun c => whiteSpace c = true) s)).
  induction (split sep s) as [|part parts IH]; [split; constructor|].
  cbn [map filter]. destruct (trim part) as [|c rest] eqn:Htrim.
  - cbn [nonEmpty]. rewrite IH. apply trim_nil in Htrim.
    split; [constructor; assumption | intros H; inversion H; assumption].
  - cbn [nonEmpty]. split; [discriminate|]. intros H. inversion H as [|? ? Hpart _]; subst.
    apply trim_nil in Hpart. congruence.
Qed.

Lemma kept_app sep a b :
  filter nonEmpty (map trim (split sep (a ++ sep :: b)))
  = filter nonEmpty (map trim (split sep a)) ++ filter nonEmpty (map trim (split sep b)).
Proof. rewrite split_app, map_app, filter_app. reflexivity. Qed.

Lemma kept_line sep line :
  ~ In sep line -> trim line <> [] -> filter nonEmpty (map trim (split sep line)) = [trim line].
Proof.
  intros Hline Hne. rewrite split_one by assumption. cbn [map filter].
  destruct (trim line); [contradiction | reflexivity].
Qed.

Lemma whiteSpace_only s :
  Forall (fun c => whiteSpace c = true) s
  <-> Forall (fun c => c = 10%N \/ whiteSpace c = true) s.
Proof.
  split; apply Forall_impl; [auto|]. intros c [-> | H]; [reflexivity | assumption].
Qed.

End Lines.

(** X13.  What [extractPlainValue] returns never holds a line feed and
    has no white space at either end (trimming it again changes
    nothing); it is the empty string exactly when the output, escape
    sequences removed, is white space throughout. *)
Theorem extractPlainValue_is_a_trimmed_line (stdout : Utils.text) :
  let v := Utils.extractPlainValue stdout in
  ~ In 10%N v /\ Utils.trim v = v
  /\ (v = [] <-> Forall (fun c => Utils.whiteSpace c = true) (Utils.stripAnsi stdout)).
Proof.
  unfold Utils.extractPlainValue. cbv zeta.
  pose proof (kept_parts 10 (Utils.stripAnsi stdout)) as Hkept.
  pose proof (kept_nil 10 (Utils.stripAnsi stdout)) as Hnil.
  rewrite <- whiteSpace_only in Hnil.
  destruct (filter Utils.nonEmpty (map Utils.trim (Utils.split 10 (Utils.stripAnsi stdout))))
    as [|l rest] eqn:Hlines.
  - cbn [last]. split; [intros [] | split; [reflexivity | tauto]].
  - assert (Hin : In (last (l :: rest) []) (l :: rest)).
    { clear. revert l. induction rest as [|x rest IH]; intros l; [left; reflexivity|].
      right. apply IH. }
    rewrite Forall_forall in Hkept. destruct (Hkept _ Hin) as [Hne [Htrim Hlf]].
    split; [assumption | split; [assumption|]].
    split; [contradiction|]. intros H. apply Hnil in H. discriminate H.
Qed.

(** X14.  [extractPlainValue] returns the last line that is not blank,
    trimmed: when the output, escape sequences removed, is some lines,
    then a line [line] that holds more than white space, then nothing
    but white space (blank lines included), the result is [line]
    without the white space at its ends. *)
Theorem extractPlainValue_is_the_last_non_blank_line
        (stdout before line after : Utils.text) :
  Utils.stripAnsi stdout = before ++ line ++ after ->
  (before = [] \/ exists b, before = b ++ [10%N]) ->
  ~ In 10%N line -> Utils.trim line <> [] ->
  (after = [] \/ exists a, after = 10%N :: a) ->
  Forall (fun c => Utils.whiteSpace c = true) after ->
  Utils.extractPlainValue stdout = Utils.trim line.
Proof.
  intros Hclean Hbefore Hline Hne Hafter Hblank.
  unfold Utils.extractPlainValue. cbv zeta. rewrite Hclean.
  assert (Htail : filter Utils.nonEmpty (map Utils.trim (Utils.split 10 (line ++ after)))
                  = [Utils.trim line]).
  { destruct Hafter as [-> | [a ->]].
    - rewrite app_nil_r. apply kept_line; assumption.
    - rewrite kept_app, kept_line by assumption.
      inversion Hblank as [|? ? _ Ha]; subst.
      apply whiteSpace_only in Ha. apply kept_nil in Ha. rewrite Ha. reflexivity. }
  destruct Hbefore as [-> | [b ->]].
  - cbn [app]. rewrite Htail. reflexivity.
  - rewrite <- app_assoc. cbn [app]. rewrite kept_app, Htail. apply last_last.
Qed.

Lemma extractPlainValue_witness :
  let stdout := ([27; 91; 51; 50; 109] ++ Utils.units "Config loaded" ++ [27; 91; 48; 109; 10]
                 ++ Utils.units "  openai-codex/gpt-5 " ++ [13; 10; 32; 10])%N in
  let before := (Utils.units "Config loaded" ++ [10])%N in
  let line := (Utils.units "  openai-codex/gpt-5 " ++ [13])%N in
  let after := [10; 32; 10]%N in
  (Utils.stripAnsi stdout = before ++ line ++ after
   /\ Utils.trim line = Utils.units "openai-codex/gpt-5")
  /\ Utils.extractPlainValue stdout = Utils.units "openai-codex/gpt-5".
Proof.
  split; [split; reflexivity|].
  apply (extractPlainValue_is_the_last_non_blank_line _
           (Utils.units "Config loaded" ++ [10])%N
           (Utils.units "  openai-codex/gpt-5 " ++ [13])%N [10; 32; 10]%N).
  - reflexivity.
  - right. exists (Utils.units "Config loaded"). reflexivity.
  - intros H. cbn in H. repeat (destruct H as [H | H]; [discriminate H|]). exact H.
  - discriminate.
  - right. exists [32; 10]%N. reflexivity.
  - repeat constructor.
Defined.

(** ** Finding the braces *)

Section Braces.

Import Utils.

Lemma indexOf_first c pre rest : ~ In c pre -> indexOf c (pre ++ c :: rest) = Some (length pre).
Proof.
  induction pre as [|x pre IH]; intros Hpre; cbn [app indexOf length].
  - rewrite N.eqb_refl. reflexivity.
  - destruct (N.eqb_spec x c) as [->|_]; [exfalso; apply Hpre; left; reflexivity|].
    rewrite IH by (intros H; apply Hpre; right; assumption). reflexivity.
Qed.

Lemma indexOf_found c s i :
  indexOf c s = Some i -> exists pre rest, s = pre ++ c :: rest /\ ~ In c pre /\ length pre = i.
Proof.
  revert i. induction s as [|x s IH]; intros i; [discriminate|]. cbn [indexOf].
  destruct (N.eqb_spec x c) as [->|Hne].
  - intros [= <-]. exists [], s. repeat split. intros [].
  - destruct (indexOf c s) as [j|]; [|discriminate]. intros [= <-].
    destruct (IH j eq_refl) as [pre [rest [-> [Hpre Hlen]]]].
    exists (x :: pre), rest. repeat split.
    + intros [E | H]; [apply Hne; assumption | apply Hpre; assumption].
    + cbn. rewrite Hlen. reflexivity.
Qed.

Lemma lastIndexOf_none c s : ~ In c s -> lastIndexOf c s = None.
Proof.
  induction s as [|x s IH]; intros Hs; [reflexivity|]. cbn [lastIndexOf].
  rewrite IH by (intros H; apply Hs; right; assumption).
  destruct (N.eqb_spec x c) as [->|_]; [exfalso; apply Hs; left; reflexivity | reflexivity].
Qed.

Lemma lastIndexOf_last c a post :
  ~ In c post -> lastIndexOf c (a ++ c :: post) = Some (length a).
Proof.
  intros Hpost. induction a as [|x a IH]; cbn [app lastIndexOf length].
  - rewrite lastIndexOf_none by assumption. rewrite N.eqb_refl. reflexivity.
  - rewrite IH. reflexivity.
Qed.

Lemma lastIndexOf_found c s j :
  lastIndexOf c s = Some j -> exists a post, s = a ++ c :: post /\ ~ In c post /\ length a = j.
Proof.
  revert j. induction s as [|x s IH]; intros j; [discriminate|]. cbn [lastIndexOf].
  destruct (lastIndexOf c s) as [i|] eqn:Hlast.
  - intros [= <-]. destruct (IH i eq_refl) as [a [post [-> [Hpost Hlen]]]].
    exists (x :: a), post. repeat split; [assumption | cbn; rewrite Hlen; reflexivity].
  - destruct (N.eqb_spec x c) as [->|]; [|discriminate]. intros [= <-].
    exists [], s. repeat split. intros Hin.
    clear IH. induction s as [|y s IHs]; [exact Hin|]. cbn [lastIndexOf] in Hlast.
    destruct (lastIndexOf c s); [discriminate|].
    destruct (N.eqb_spec y c) as [->|Hne]; [discriminate|].
    destruct Hin as [E | Hin]; [apply Hne; assumption | apply IHs; [reflexivity | assumption]].
Qed.

(** Two cuts of one text, the first strictly before the second. *)
Lemma cuts_nest {A : Type} (pre a : list A) x y r post :
  pre ++ x :: r = a ++ y :: post -> length pre < length a ->
  exists mid, a = pre ++ x :: mid /\ r = mid ++ y :: post.
Proof.
  revert a. induction pre as [|p pre IH]; intros [|h a] E L; cbn in *; try lia.
  - injection E as -> ->. exists a. split; reflexivity.
  - injection E as -> E. destruct (IH a E) as [mid [-> ->]]; [lia|].
    exists mid. split; reflexivity.
Qed.

Lemma slice_braces pre mid post :
  slice (length pre) (length (pre ++ 123%N :: mid) + 1) (pre ++ 123%N :: mid ++ 125%N :: post)
  = 123%N :: mid ++ [125%N].
Proof.
  unfold slice. rewrite skipn_app, skipn_all, Nat.sub_diag. cbn [skipn app].
  rewrite length_app. cbn [length].
  replace (length pre + S (length mid) + 1 - length pre) with (S (S (length mid))) by lia.
  rewrite firstn_cons. f_equal.
  change (125%N :: post) with ([125%N] ++ post). rewrite app_assoc.
  replace (S (length mid)) with (length (mid ++ [125%N])) by (rewrite length_app; cbn; lia).
  rewrite firstn_app, firstn_all, Nat.sub_diag. cbn [firstn]. apply app_nil_r.
Qed.

Variable JSON_parse : text -> option value.

Lemma extractJson_slice stdout pre mid post :
  stripAnsi stdout = pre ++ 123%N :: mid ++ 125%N :: post ->
  ~ In 123%N pre -> ~ In 125%N post ->
  extractJson JSON_parse stdout
  = match JSON_parse (123%N :: mid ++ [125%N]) with Some v => v | None => null end.
Proof.
  intros Hclean Hpre Hpost. unfold extractJson. cbv zeta. rewrite Hclean.
  rewrite indexOf_first by assumption.
  change (pre ++ 123%N :: mid ++ 125%N :: post) with (pre ++ (123%N :: mid) ++ 125%N :: post).
  rewrite app_assoc, lastIndexOf_last by assumption.
  rewrite <- app_assoc. cbn [app].
  destruct (Nat.leb_spec (length (pre ++ 123%N :: mid)) (length pre)) as [H|_].
  - rewrite length_app in H. cbn [length] in H. lia.
  - rewrite slice_braces. reflexivity.
Qed.

End Braces.

(** X15.  [extractJson] looks past what surrounds the object: when the
    output, escape sequences removed, is some text without an opening
    brace, then a brace-delimited text, then some text without a closing
    brace, the result is what [JSON.parse] makes of the brace-delimited
    text alone, and [null] when [JSON.parse] throws on it. *)
Theorem extractJson_ignores_what_surrounds_the_braces
        (JSON_parse : Utils.text -> option value) (stdout pre mid post : Utils.text) :
  Utils.stripAnsi stdout = pre ++ 123%N :: mid ++ 125%N :: post ->
  ~ In 123%N pre -> ~ In 125%N post ->
  Utils.extractJson JSON_parse stdout
  = match JSON_parse (123%N :: mid ++ [125%N]) with Some v => v | None => null end.
Proof. apply extractJson_slice. Qed.

Lemma extractJson_witness :
  let parse := fun t : Utils.text =>
                 if text_eqb t (Utils.units "{}") then Some (object []) else None in
  let stdout := ([27; 91; 50; 109] ++ Utils.units "Doctor warnings: none" ++ [27; 91; 48; 109; 10]
                 ++ Utils.units "{}" ++ [10] ++ Utils.units "done")%N in
  Utils.stripAnsi stdout
  = ((Utils.units "Doctor warnings: none" ++ [10]) ++ 123 :: [] ++ 125 :: 10 :: Utils.units "done")%N
  /\ Utils.extractJson parse stdout = object [].
Proof.
  split; [reflexivity|].
  apply (extractJson_ignores_what_surrounds_the_braces
           (fun t : Utils.text =>
              if text_eqb t (Utils.units "{}") then Some (object []) else None)
           _ (Utils.units "Doctor warnings: none" ++ [10])%N [] (10 :: Utils.units "done")%N).
  - reflexivity.
  - intros H. cbn in H. repeat (destruct H as [H | H]; [discriminate H|]). exact H.
  - intros H. cbn in H. repeat (destruct H as [H | H]; [discriminate H|]). exact H.
Defined.

(** X16.  [extractJson] never returns anything but [null] or the value
    [JSON.parse] gives for one slice of the output, escape sequences
    removed: the slice from the first opening brace to the last closing
    brace.  In particular the result is [null] when either brace is
    missing or the last closing brace comes before the first opening
    one. *)
Theorem extractJson_parses_one_slice_or_gives_null
        (JSON_parse : Utils.text -> option value) (stdout : Utils.text) :
  Utils.extractJson JSON_parse stdout = null
  \/ exists pre mid post,
       Utils.stripAnsi stdout = pre ++ 123%N :: mid ++ 125%N :: post
       /\ ~ In 123%N pre /\ ~ In 125%N post
       /\ JSON_parse (123%N :: mid ++ [125%N]) = Some (Utils.extractJson JSON_parse stdout).
Proof.
  destruct (Utils.indexOf 123 (Utils.stripAnsi stdout)) as [start|] eqn:Hstart;
    [|left; unfold Utils.extractJson; cbv zeta; rewrite Hstart; reflexivity].
  destruct (Utils.lastIndexOf 125 (Utils.stripAnsi stdout)) as [end_|] eqn:Hend;
    [|left; unfold Utils.extractJson; cbv zeta; rewrite Hstart, Hend; reflexivity].
  destruct (Nat.leb_spec end_ start) as [Hle|Hlt].
  - left. unfold Utils.extractJson. cbv zeta. rewrite Hstart, Hend.
    apply Nat.leb_le in Hle. rewrite Hle. reflexivity.
  - apply indexOf_found in Hstart. destruct Hstart as [pre [r [E1 [Hpre L1]]]].
    apply lastIndexOf_found in Hend. destruct Hend as [a [post [E2 [Hpost L2]]]].
    rewrite E1 in E2. destruct (cuts_nest pre a 123%N 125%N r post E2) as [mid [-> ->]];
      [lia|].
    rewrite (extractJson_slice JSON_parse stdout pre mid post E1 Hpre Hpost).
    destruct (JSON_parse (123%N :: mid ++ [125%N])) as [v|] eqn:Hparse;
      [right | left; reflexivity].
    exists pre, mid, post. repeat split; assumption.
Qed.

(** ** Escaping for a header *)

Section Ascii.

Import Utils Partials.

Lemma text_eqb_eq s t : text_eqb s t = true -> s = t.
Proof.
  revert t. induction s as [|a s IH]; intros [|b t] H; try discriminate; [reflexivity|].
  cbn [text_eqb] in H. apply andb_true_iff in H. destruct H as [Hab Hst].
  apply N.eqb_eq in Hab. subst b. f_equal. apply IH. assumption.
Qed.

Lemma codeUnits_In n :
  forall from c, (from <= c < from + N.of_nat n)%N -> In c (codeUnits from n).
Proof.
  induction n as [|n IH]; intros from c Hc; [lia|]. cbn [codeUnits].
  destruct (N.eq_dec from c) as [->|Hne]; [left; reflexivity|].
  right. apply IH. lia.
Qed.

(** Every code unit, one by one: the replacement is [\u] and the four
    lower-case hexadecimal digits of the unit, six units below 128. *)
Lemma escapeUnit_table :
  forallb (fun c => text_eqb (escapeUnit c) (fourHex c)
                    && forallb (fun u => (u <? 128)%N) (escapeUnit c))
    (codeUnits 0 (N.to_nat 65536)) = true.
Proof. vm_compute. reflexivity. Qed.

Lemma escapeUnit_spec c :
  (c < 65536)%N ->
  escapeUnit c = fourHex c /\ Forall (fun u => (u < 128)%N) (escapeUnit c).
Proof.
  intros Hc. pose proof escapeUnit_table as Htable. rewrite forallb_forall in Htable.
  specialize (Htable c). rewrite andb_true_iff in Htable.
  destruct Htable as [Heq Hascii].
  - apply codeUnits_In. lia.
  - split; [apply text_eqb_eq; assumption|].
    rewrite forallb_forall in Hascii. apply Forall_forall. intros u Hu.
    apply N.ltb_lt. apply Hascii. assumption.
Qed.

End Ascii.

(** X17.  [asciiJson] on a serialised text (code units are below
    65536): the result holds only units below 128; units below 128 are
    kept as they are and every other unit becomes the six units [\u]
    and its four lower-case hexadecimal digits, zero-padded, so the
    result is five units longer per escaped unit. *)
Theorem asciiJson_escapes_every_unit_beyond_ascii (stringified : Utils.text) :
  Forall (fun c => (c < 65536)%N) stringified ->
  Partials.asciiJson stringified
  = flat_map (fun c => if (c <? 128)%N then [c] else fourHex c) stringified
  /\ Forall (fun c => (c < 128)%N) (Partials.asciiJson stringified)
  /\ length (Partials.asciiJson stringified)
     = length stringified + 5 * length (filter (fun c => (128 <=? c)%N) stringified).
Proof.
  induction 1 as [|c rest Hc _ [IH1 [IH2 IH3]]].
  - repeat split. constructor.
  - unfold Partials.asciiJson in *. cbn [flat_map filter].
    destruct (escapeUnit_spec c Hc) as [Hhex Hascii].
    assert (Hb : Utils.between 128 65535 c = negb (c <? 128)%N).
    { unfold Utils.between.
      destruct (N.leb_spec 128 c), (N.ltb_spec c 128), (N.leb_spec c 65535);
        try lia; reflexivity. }
    assert (Hf : (128 <=? c)%N = negb (c <? 128)%N).
    { destruct (N.leb_spec 128 c), (N.ltb_spec c 128); try lia; reflexivity. }
    rewrite Hb, Hf. destruct (N.ltb_spec c 128) as [Hlow|Hhigh]; cbn [negb].
    + split; [cbn [app]; f_equal; exact IH1|]. split.
      * constructor; assumption.
      * cbn [app length]. rewrite IH3. lia.
    + split; [rewrite Hhex; f_equal; exact IH1|]. split.
      * apply Forall_app. split; assumption.
      * rewrite length_app, IH3, Hhex. cbn [length fourHex]. lia.
Qed.

Lemma asciiJson_witness :
  let stringified := ([123; 34; 30331; 24405; 34; 58; 34; 233; 34; 125])%N in
  Forall (fun c => (c < 65536)%N) stringified
  /\ Partials.asciiJson stringified
     = ([123; 34] ++ Utils.units "\u767b\u5f55" ++ [34; 58; 34] ++ Utils.units "\u00e9"
        ++ [34; 125])%N.
Proof.
  assert (H : Forall (fun c => (c < 65536)%N)
                [123; 34; 30331; 24405; 34; 58; 34; 233; 34; 125]%N)
    by (repeat constructor).
  split; [exact H|].
  exact (proj1 (asciiJson_escapes_every_unit_beyond_ascii _ H)).
Defined.

(** X18.  [parseInput] on a non-empty string: every entry of the result
    is non-empty, has no white space at its ends and holds no plus
    sign; and the result is the empty list, not the [['text']] default,
    exactly when the string is made of plus signs and white space
    only. *)
Theorem parseInput_splits_a_string_into_clean_entries (s : Utils.text) :
  s <> [] ->
  Forall (fun e => e <> [] /\ Utils.trim e = e /\ ~ In 43%N e)
    (Partials.parseInput (Partials.RawString s))
  /\ (Partials.parseInput (Partials.RawString s) = []
      <-> Forall (fun c => c = 43%N \/ Utils.whiteSpace c = true) s).
Proof.
  intros Hs. unfold Partials.parseInput.
  destruct s as [|c rest]; [contradiction|]. cbn [Utils.nonEmpty].
  split; [apply kept_parts | apply kept_nil].
Qed.

Lemma parseInput_witness :
  Utils.units "text + image" <> []
  /\ Partials.parseInput (Partials.RawString (Utils.units "text + image"))
     = [Utils.units "text"; Utils.units "image"]
  /\ Forall (fun e => e <> [] /\ Utils.trim e = e /\ ~ In 43%N e)
       (Partials.parseInput (Partials.RawString (Utils.units "text + image"))).
Proof.
  assert (H : Utils.units "text + image" <> []) by discriminate.
  split; [exact H|]. split; [reflexivity|].
  exact (proj1 (parseInput_splits_a_string_into_clean_entries _ H)).
Defined.

(** * The [index.ts] that looks for the binary *)


